(** * The interactive shell of the lab image: [execute] and [main]

    A shallow embedding of the shell program (fork / exec / wait around a
    [fgets] read loop) together with a small model of the C library and
    kernel primitives it calls, and the properties of its line reader,
    process supervisor and read-eval loop. *)

From Stdlib Require Import ZArith Ascii String Lia.
From stdpp Require Import base list gmap.

Local Open Scope Z_scope.
Local Open Scope list_scope.

(** ** C strings in a character array *)

Module CStr.

(** [#define NUM 1024] *)
Definition NUM : nat := 1024%nat.

(** The string terminator ['\0'] and the line terminator ['\n']. *)
Definition NUL : ascii := "000"%char.
Definition LF : ascii := "010"%char.

(** Width of [size_t] on the target (the result type of [strlen]). *)
Definition SIZE_BITS : Z := 64.

(** A string literal of the source as the list of its characters. *)
Definition lit (s : string) : list ascii := list_ascii_of_string s.

(** The C string stored at the start of a character array: the characters
    before the first ['\0'].  This is what the [%s] conversion of [printf],
    [strlen] and the image-replacement call read through a [char *]. *)
Fixpoint c_str (buf : list ascii) : list ascii :=
  match buf with
  | [] => []
  | c :: rest => if Ascii.eqb c NUL then [] else c :: c_str rest
  end.

(** [strlen(s)], for an array that holds a terminator. *)
Definition strlen (buf : list ascii) : nat := length (c_str buf).

(** The reading loop of [fgets]: at most [n] characters are taken from the
    stream, and reading stops after a newline, which is kept. *)
Fixpoint read_line (n : nat) (input : list ascii) : list ascii * list ascii :=
  match n, input with
  | O, _ => ([], input)
  | S _, [] => ([], [])
  | S n', c :: rest =>
      if Ascii.eqb c LF then ([c], rest)
      else let '(l, r) := read_line n' rest in (c :: l, r)
  end.

(** The characters of [chunk] followed by a terminator are stored at the
    start of the array [s]; the rest of the array keeps what it held. *)
Definition store (chunk s : list ascii) : list ascii :=
  chunk ++ NUL :: drop (S (length chunk)) s.

(** Modelled from the spec: the read of the Line Reader, which the source
    takes from the C library as [fgets(s, size, stdin)].  On the remaining
    input: [None] is the null pointer returned when the stream has already
    ended and no character was read (the array is left as it was);
    otherwise the array as written, and in both cases the input that
    remains. *)
Definition fgets (s : list ascii) (size : nat) (input : list ascii)
  : option (list ascii) * list ascii :=
  match input with
  | [] => (None, [])
  | _ :: _ =>
      let '(chunk, rest) := read_line (size - 1) input in
      (Some (store chunk s), rest)
  end.

(** The characters [fgets] consumed from the stream. *)
Definition consumed (size : nat) (input : list ascii) : list ascii :=
  fst (read_line (size - 1) input).

(** [command[strlen(cmd) - 1] = '\0'] where [cmd] points at [command]: the
    index is computed in [size_t], so a length of zero wraps around to the
    largest value; a store outside the array is undefined ([None]). *)
Definition strip_last (command : list ascii) : option (list ascii) :=
  let idx := (Z.of_nat (strlen command) - 1) mod 2 ^ SIZE_BITS in
  if idx <? Z.of_nat (length command)
  then Some (<[Z.to_nat idx := NUL]> command)
  else None.

End CStr.

(** ** Programs over the primitives the shell calls *)

Module Sys.
Import CStr.

(** A program is a tree of calls to the C library and the kernel; each node
    holds what the call is given and how the program goes on with what the
    call returns.  [Fork] has one continuation for both sides: the child and
    the parent go on from the same point and differ only in the value they
    receive.  [Exec] goes on only when the call comes back, that is, when
    it failed.  [Exit] and [Undefined] have no continuation. *)
Inductive Prog (A : Type) : Type :=
| Ret (a : A)
| Setvbuf (k : Prog A)
| Printf (s : list ascii) (k : Prog A)
| Fgets (s : list ascii) (size : nat) (k : option (list ascii) -> Prog A)
| Fork (k : Z -> Prog A)
| Exec (path : list ascii) (argv : list (list ascii)) (k : Prog A)
| Wait (arg : Z) (k : Z -> Prog A)
| Perror (s : list ascii) (k : Prog A)
| Exit (status : Z)
| Undefined.

Arguments Ret {A} a.
Arguments Setvbuf {A} k.
Arguments Printf {A} s k.
Arguments Fgets {A} s size k.
Arguments Fork {A} k.
Arguments Exec {A} path argv k.
Arguments Wait {A} arg k.
Arguments Perror {A} s k.
Arguments Exit {A} status.
Arguments Undefined {A}.

(** Sequencing: [bind p f] runs [f] on the value [p] returns to its caller. *)
Fixpoint bind {A B : Type} (p : Prog A) (f : A -> Prog B) : Prog B :=
  match p with
  | Ret a => f a
  | Setvbuf k => Setvbuf (bind k f)
  | Printf s k => Printf s (bind k f)
  | Fgets s size k => Fgets s size (fun r => bind (k r) f)
  | Fork k => Fork (fun pid => bind (k pid) f)
  | Exec path argv k => Exec path argv (bind k f)
  | Wait arg k => Wait arg (fun r => bind (k r) f)
  | Perror s k => Perror s (bind k f)
  | Exit status => Exit status
  | Undefined => Undefined
  end.

Declare Scope prog_scope.
Delimit Scope prog_scope with prog.
Notation "x <- p ;; q" := (bind p (fun x => q))
  (at level 100, p at next level, right associativity) : prog_scope.
Notation "p ;; q" := (bind p (fun _ => q))
  (at level 100, right associativity) : prog_scope.

(** The calls, as the source writes them. *)
Definition setvbuf_stdout_IONBF : Prog unit := Setvbuf (Ret tt).
Definition printf (s : list ascii) : Prog unit := Printf s (Ret tt).
Definition fork : Prog Z := Fork Ret.
Definition exec (path arg0 : list ascii) : Prog unit :=
  Exec (c_str path) [c_str arg0] (Ret tt).
Definition wait (arg : Z) : Prog Z := Wait arg Ret.
Definition perror (s : list ascii) : Prog unit := Perror s (Ret tt).
Definition exit {A : Type} (status : Z) : Prog A := Exit status.

End Sys.

(** ** The shell *)

Module Shell.
Import CStr Sys.
Local Open Scope prog_scope.

(** [int execute(char *command)].  [command] is the array the pointer
    refers to.  The local [status] is declared and never written. *)
Definition execute (command : list ascii) : Prog Z :=
  pid <- fork ;;
  (if pid =? 0 then
     exec command command ;;
     perror (lit "exec failed") ;;
     exit 1
   else if pid >? 0 then
     _ <- wait pid ;; Ret tt
   else
     perror (lit "fork failed")) ;;
  Ret 0.

(** The body of [while (1)] in [main], from the array [command] as the
    previous pass left it to the array as this pass leaves it.  A null
    [cmd] reaches [strlen] unchecked. *)
Definition loop_body (command : list ascii) : Prog (list ascii) :=
  printf (lit "~ # ") ;;
  cmd <- Fgets command NUM Ret ;;
  match cmd with
  | None => Undefined
  | Some command1 =>
      match strip_last command1 with
      | None => Undefined
      | Some command2 =>
          printf (lit (String LF " Running command: ") ++ c_str command2 ++ [LF]) ;;
          _ <- execute command2 ;;
          Ret command2
      end
  end.

(** [n] passes of the loop; [while (1)] is the limit of these. *)
Fixpoint loop (n : nat) (command : list ascii) : Prog (list ascii) :=
  match n with
  | O => Ret command
  | S n' => command' <- loop_body command ;; loop n' command'
  end.

(** [int main()], cut after [n] passes of its loop. *)
Definition main (n : nat) (command : list ascii) : Prog (list ascii) :=
  setvbuf_stdout_IONBF ;;
  printf (lit ("Running Shell..." ++ String LF "")) ;;
  loop n command.

End Shell.

(** ** The environment: streams, process table, and what each call does *)

Module Kernel.
Import CStr Sys.

(** Error numbers the failing calls leave in [errno]. *)
Inductive Errno : Set := ENONE | ENOENT | EAGAIN | ECHILD.

(** What an observer of the session sees, each entry tagged with the
    identifier of the process that did it. *)
Inductive Event : Type :=
| EvUnbuffered                                   (* stdout set to _IONBF *)
| EvOut (s : list ascii)                         (* bytes on standard output *)
| EvErr (s : list ascii) (e : Errno)             (* perror line on standard error *)
| EvRead (chunk : list ascii)                    (* bytes taken from standard input *)
| EvEof                                          (* a read found the stream ended *)
| EvFork (ret : Z)                               (* fork returned [ret] to its caller *)
| EvExec (path : list ascii) (argv : list (list ascii))
| EvExit (status : Z)                            (* the process terminated *)
| EvWait (child : Z) (status : Z)                (* wait for [child] returned *)
| EvNoChild (arg : Z).                            (* wait for [arg]: no such child *)

(** An executable file: how many input bytes the program takes, what it
    prints, and the status it ends with ([None]: it never ends). *)
Record Image : Type := {
  img_reads : nat;
  img_out : list ascii;
  img_status : option Z
}.

(** What a child does once it is given the processor: the events it adds,
    the input it leaves, and its exit status ([None]: it never ends). *)
Record ChildRun : Type := {
  cr_events : list (Z * Event);
  cr_stdin : list ascii;
  cr_status : option Z
}.

(** A child is created but not yet waited for, or already reaped. *)
Inductive Child : Type :=
| Runnable (body : list ascii -> ChildRun)
| Reaped (status : Z).

Record World : Type := {
  self : Z;                                 (* identifier of the running process *)
  stdin : list ascii;                       (* input not yet consumed *)
  log : list (Z * Event);                   (* everything observed so far *)
  procs : gmap Z Child;                     (* children of the running process *)
  forks : list bool;                        (* whether the coming creations succeed *)
  next_pid : positive;                      (* identifier the next child gets *)
  programs : list ascii -> option Image;    (* the executable at a path, if any *)
  errno : Errno
}.

Definition emit (e : Event) (w : World) : World :=
  {| self := self w; stdin := stdin w; log := log w ++ [(self w, e)];
     procs := procs w; forks := forks w; next_pid := next_pid w;
     programs := programs w; errno := errno w |}.

Definition set_stdin (input : list ascii) (w : World) : World :=
  {| self := self w; stdin := input; log := log w;
     procs := procs w; forks := forks w; next_pid := next_pid w;
     programs := programs w; errno := errno w |}.

Definition set_errno (e : Errno) (w : World) : World :=
  {| self := self w; stdin := stdin w; log := log w;
     procs := procs w; forks := forks w; next_pid := next_pid w;
     programs := programs w; errno := e |}.

Definition set_forks (fs : list bool) (w : World) : World :=
  {| self := self w; stdin := stdin w; log := log w;
     procs := procs w; forks := fs; next_pid := next_pid w;
     programs := programs w; errno := errno w |}.

Definition set_log (l : list (Z * Event)) (w : World) : World :=
  {| self := self w; stdin := stdin w; log := l;
     procs := procs w; forks := forks w; next_pid := next_pid w;
     programs := programs w; errno := errno w |}.

(** The parent's side of a successful creation: the child is entered in the
    table under a fresh identifier. *)
Definition add_child (pid : positive) (c : Child) (w : World) : World :=
  {| self := self w; stdin := stdin w; log := log w;
     procs := <[Z.pos pid := c]> (procs w); forks := forks w;
     next_pid := Pos.succ pid;
     programs := programs w; errno := errno w |}.

(** The world as the new child sees it when it first runs: the same streams
    and files, its own identifier, no children of its own, an empty record
    of events (what it adds is appended to the session's by [wait]). *)
Definition child_world (pid : positive) (input : list ascii) (w : World) : World :=
  {| self := Z.pos pid; stdin := input; log := [];
     procs := ∅; forks := []; next_pid := Pos.succ pid;
     programs := programs w; errno := errno w |}.

(** How the run of a process ended: it returned [a] to its caller, it
    terminated with a status, it is blocked for ever, or it ran into
    undefined behaviour. *)
Inductive Status (A : Type) : Type :=
| Done (a : A)
| Exited (st : Z)
| Hung
| Crashed.

Arguments Done {A} a.
Arguments Exited {A} st.
Arguments Hung {A}.
Arguments Crashed {A}.

Record Result (A : Type) : Type := { res : Status A; final : World }.
Arguments res {A} r.
Arguments final {A} r.

(** A replaced image runs to its end, or for ever. *)
Definition run_image {A : Type} (img : Image) (w : World) : Result A :=
  let w1 := emit (EvOut (img_out img)) (set_stdin (drop (img_reads img) (stdin w)) w) in
  match img_status img with
  | Some st => {| res := Exited st; final := emit (EvExit st) w1 |}
  | None => {| res := Hung; final := w1 |}
  end.

(** What the table keeps of a child's run.  A child that comes back to the
    end of the program it shares with its parent leaves [main], which ends
    the process with the value returned there (0 when there is none). *)
Definition child_run {A : Type} (r : Result A) : ChildRun :=
  {| cr_events := log (final r) ++
                  match res r with
                  | Done _ => [(self (final r), EvExit 0)]
                  | _ => []
                  end;
     cr_stdin := stdin (final r);
     cr_status := match res r with
                  | Done _ => Some 0
                  | Exited st => Some st
                  | Hung | Crashed => None
                  end |}.

(** Modelled from the spec: the kernel and C library behind the calls, which
    are not part of the sources.  Creation (fork-equivalent) yields a new
    context that starts as a duplicate of the caller, with a return value
    that tells the two sides apart; image replacement (exec-equivalent)
    never returns on success; process wait suspends the caller until the
    specified child terminates and yields that child's status.  The child is
    given the processor when its parent waits for it, which is the schedule
    least favourable to the parent: whatever a parent does before it waits
    is recorded before anything of its child, and a parent that does not
    wait sees nothing of its child.  (In [execute] the parent does nothing
    between the creation and the wait, so every schedule gives the same
    record.) *)
Fixpoint run {A : Type} (p : Prog A) (w : World) : Result A :=
  match p with
  | Ret a => {| res := Done a; final := w |}
  | Setvbuf k => run k (emit EvUnbuffered w)
  | Printf s k => run k (emit (EvOut s) w)
  | Fgets s size k =>
      match fgets s size (stdin w) with
      | (None, rest) => run (k None) (emit EvEof (set_stdin rest w))
      | (Some s', rest) =>
          run (k (Some s')) (emit (EvRead (consumed size (stdin w))) (set_stdin rest w))
      end
  | Fork k =>
      match forks w with
      | false :: fs =>
          run (k (-1)) (emit (EvFork (-1)) (set_errno EAGAIN (set_forks fs w)))
      | _ =>
          let pid := next_pid w in
          let body := fun input => child_run (run (k 0) (child_world pid input w)) in
          run (k (Z.pos pid)) (emit (EvFork (Z.pos pid)) (add_child pid (Runnable body) (set_forks (tail (forks w)) w)))
      end
  | Exec path argv k =>
      let w1 := emit (EvExec path argv) w in
      match programs w path with
      | Some img => run_image img w1
      | None => run k (set_errno ENOENT w1)
      end
  | Wait arg k =>
      match procs w !! arg with
      | Some (Runnable body) =>
          let cr := body (stdin w) in
          let w1 := set_stdin (cr_stdin cr) (set_log (log w ++ cr_events cr) w) in
          match cr_status cr with
          | Some st =>
              run (k st) (emit (EvWait arg st)
                            {| self := self w1; stdin := stdin w1; log := log w1;
                               procs := <[arg := Reaped st]> (procs w1);
                               forks := forks w1; next_pid := next_pid w1;
                               programs := programs w1; errno := errno w1 |})
          | None => {| res := Hung; final := w1 |}
          end
      | _ => run (k (-1)) (emit (EvNoChild arg) (set_errno ECHILD w))
      end
  | Perror s k => run k (emit (EvErr s (errno w)) w)
  | Exit st => {| res := Exited st; final := emit (EvExit st) w |}
  | Undefined => {| res := Crashed; final := w |}
  end.

(** The world a session starts in. *)
Definition boot (input : list ascii) (fs : list bool)
    (progs : list ascii -> option Image) : World :=
  {| self := 1; stdin := input; log := []; procs := ∅; forks := fs;
     next_pid := 2%positive; programs := progs; errno := ENONE |}.

End Kernel.

(** ** What a session is expected to show *)

Module Session.
Import CStr Sys Shell Kernel.

(** Whether the next creation gives a child. *)
Definition creation_succeeds (w : World) : bool :=
  match forks w with
  | false :: _ => false
  | _ => true
  end.

(** The identifier the next child is given. *)
Definition child_pid (w : World) : Z := Z.pos (next_pid w).

(** The status the child of [execute] ends with when it is handed [path]:
    that of the program at [path], or 1 when nothing is there; [None] when
    the program never ends. *)
Definition child_status (w : World) (path : list ascii) : option Z :=
  match programs w path with
  | Some img => img_status img
  | None => Some 1
  end.

(** What the child leaves in the record of the session. *)
Definition child_events (w : World) (path : list ascii) : list (Z * Event) :=
  (child_pid w, EvExec path [path]) ::
  match programs w path with
  | Some img =>
      (child_pid w, EvOut (img_out img)) ::
      match img_status img with
      | Some st => [(child_pid w, EvExit st)]
      | None => []
      end
  | None =>
      [(child_pid w, EvErr (lit "exec failed") ENOENT); (child_pid w, EvExit 1)]
  end.

(** The input the child leaves. *)
Definition child_input (w : World) (path : list ascii) : list ascii :=
  match programs w path with
  | Some img => drop (img_reads img) (stdin w)
  | None => stdin w
  end.

(** The world of the parent once its child has ended with [st] and has been
    waited for. *)
Definition reaped (w : World) (path : list ascii) (st : Z) : World :=
  {| self := self w; stdin := child_input w path;
     log := log w ++ (self w, EvFork (child_pid w)) ::
              child_events w path ++ [(self w, EvWait (child_pid w) st)];
     procs := <[child_pid w := Reaped st]> (procs w);
     forks := tail (forks w); next_pid := Pos.succ (next_pid w);
     programs := programs w; errno := errno w |}.

(** The world of the caller after a creation that gave no child. *)
Definition creation_failed (w : World) : World :=
  emit (EvErr (lit "fork failed") EAGAIN)
    (emit (EvFork (-1)) (set_errno EAGAIN (set_forks (tail (forks w)) w))).

(** The prompt and the echo of a command line. *)
Definition prompt : list ascii := lit "~ # ".
Definition echo (line : list ascii) : list ascii :=
  lit (String LF " Running command: ") ++ line ++ [LF].

(** The command line a pass of the loop makes of the characters it read. *)
Definition command_of (chunk : list ascii) : list ascii :=
  take (strlen chunk - 1) chunk.

(** The array a pass makes of the array [command] it finds and the
    characters it read. *)
Definition next_array (command chunk : list ascii) : list ascii :=
  <[(strlen chunk - 1)%nat := NUL]> (store chunk command).

(** The world in which a pass hands its command to [execute]: the prompt is
    out, the characters are read, the command is echoed. *)
Definition at_dispatch (w : World) : World :=
  let chunk := consumed NUM (stdin w) in
  emit (EvOut (echo (command_of chunk)))
    (emit (EvRead chunk)
       (set_stdin (drop (length chunk) (stdin w)) (emit (EvOut prompt) w))).

(** Events of one kind in a record. *)
Definition is_wait (e : Z * Event) : bool :=
  match e.2 with EvWait _ _ | EvNoChild _ => true | _ => false end.
Definition is_exec (e : Z * Event) : bool :=
  match e.2 with EvExec _ _ => true | _ => false end.

(** A command line as typed: no terminator of either kind inside, and short
    enough that the array takes it together with its newline. *)
Definition is_line (line : list ascii) : bool :=
  forallb (fun c => negb (Ascii.eqb c NUL) && negb (Ascii.eqb c LF)) line
  && (length line <? NUM - 1)%nat.

(** How a run ended, leaving out the value returned. *)
Definition outcome {A : Type} (r : Result A) : Status unit :=
  match res r with
  | Done _ => Done tt
  | Exited st => Exited st
  | Hung => Hung
  | Crashed => Crashed
  end.

(** An event with the exit status it may carry put to 0. *)
Definition forget_status (e : Z * Event) : Z * Event :=
  match e.2 with
  | EvExit _ => (e.1, EvExit 0)
  | EvWait c _ => (e.1, EvWait c 0)
  | _ => e
  end.

(** Two programs that differ at most in the status they end with. *)
Definition same_image (i1 i2 : option Image) : Prop :=
  match i1, i2 with
  | Some a, Some b =>
      img_reads a = img_reads b ∧ img_out a = img_out b ∧
      (img_status a = None ↔ img_status b = None)
  | None, None => True
  | _, _ => False
  end.

(** Two worlds that differ at most in the statuses children end with: in
    those the programs on the disk give, and in those already recorded. *)
Definition same_but_status (w1 w2 : World) : Prop :=
  self w1 = self w2 ∧ stdin w1 = stdin w2 ∧ forks w1 = forks w2 ∧
  next_pid w1 = next_pid w2 ∧ errno w1 = errno w2 ∧
  map forget_status (log w1) = map forget_status (log w2) ∧
  ∀ path, same_image (programs w1 path) (programs w2 path).

End Session.

(** ** A sample session *)

Module Demo.
Import CStr Sys Shell Kernel Session.

(** Two programs on the disk: one ends with 0 after printing, one with 1. *)
Definition progs (path : list ascii) : option Image :=
  if decide (path = lit "/bin/true")
  then Some {| img_reads := 0; img_out := lit "ok"; img_status := Some 0 |}
  else if decide (path = lit "/bin/false")
  then Some {| img_reads := 0; img_out := []; img_status := Some 1 |}
  else None.

(** The array as a previous, longer command may have left it. *)
Definition stale : list ascii := replicate NUM "x"%char.

Definition nl : string := String LF "".

(** Two commands, then the end of the stream; every creation succeeds. *)
Definition two_commands : World :=
  boot (lit ("/bin/true" ++ nl ++ "/bin/false" ++ nl)) [] progs.

(** A command with an argument, and no child can be made for it. *)
Definition no_child : World :=
  boot (lit ("ls -l" ++ nl ++ "/bin/true" ++ nl)) [false] progs.

(** A command with an argument; nothing of that name is on the disk. *)
Definition two_words : World :=
  boot (lit ("ls -l" ++ nl)) [] progs.

(** The array holding the command [/bin/true] over older contents. *)
Definition command_true : list ascii := store (lit "/bin/true") stale.

(** The array holding [ls -l], which names no program. *)
Definition command_ls : list ascii := store (lit "ls -l") stale.

(** As many characters as the array takes, no newline among them, and two
    more characters behind them. *)
Definition long_input : list ascii := replicate (NUM - 1) "a"%char ++ lit "bc".
Definition long_line : World := boot long_input [] progs.

(** The disk of the sample session with other exit statuses. *)
Definition progs' (path : list ascii) : option Image :=
  if decide (path = lit "/bin/true")
  then Some {| img_reads := 0; img_out := lit "ok"; img_status := Some 7 |}
  else if decide (path = lit "/bin/false")
  then Some {| img_reads := 0; img_out := []; img_status := Some 0 |}
  else None.

Definition two_commands' : World :=
  boot (lit ("/bin/true" ++ nl ++ "/bin/false" ++ nl)) [] progs'.

End Demo.

(** ** Counting and table predicates for whole sessions *)

Module Observe.
Import CStr Sys Shell Kernel Session.

(** Events of further kinds in a record. *)
Definition is_fork (e : Z * Event) : bool :=
  match e.2 with EvFork _ => true | _ => false end.
Definition is_read (e : Z * Event) : bool :=
  match e.2 with EvRead _ => true | _ => false end.
Definition is_err (e : Z * Event) : bool :=
  match e.2 with EvErr _ _ => true | _ => false end.

(** Every program on the disk ends. *)
Definition all_end (progs : list ascii -> option Image) : Prop :=
  forall path img, progs path = Some img -> img_status img <> None.

(** No child of the table is still to be waited for. *)
Definition all_reaped (table : gmap Z Child) : Prop :=
  forall pid c, table !! pid = Some c -> exists st, c = Reaped st.

(** The string in the array ends inside the array. *)
Definition terminated (a : list ascii) : Prop :=
  a !! strlen a = Some NUL.

End Observe.

(** ** Files and descriptors *)

Module Posix.
Import CStr.

(** Why a call on a file failed. *)
Inductive Cause : Set := NoSuchFile | BadDescriptor | DeviceError.

(** The files of the system as a process sees them: the contents at each
    path, for each open descriptor the bytes not yet read, the descriptor
    the next [open] gives, whether the device fails the reads, and what was
    written to standard output and to standard error. *)
Record Files : Type := {
  disk : list ascii -> option (list ascii);
  fds : gmap Z (list ascii);
  next_fd : nat;
  read_fails : bool;
  stdout : list ascii;
  stderr : list (list ascii * Cause);
  cause : option Cause
}.

(** How a program ended: it returned a value, it called [exit], or it ran
    into undefined behaviour. *)
Inductive End (A : Type) : Type :=
| Value (a : A)
| Exits (status : Z)
| Undef.

Arguments Value {A} a.
Arguments Exits {A} status.
Arguments Undef {A}.

(** A program over the files: from the files before to how it ended and the
    files after. *)
Definition Run (A : Type) : Type := Files -> End A * Files.

Definition ret {A : Type} (a : A) : Run A := fun fs => (Value a, fs).

Definition bind {A B : Type} (p : Run A) (f : A -> Run B) : Run B :=
  fun fs =>
    match p fs with
    | (Value a, fs') => f a fs'
    | (Exits st, fs') => (Exits st, fs')
    | (Undef, fs') => (Undef, fs')
    end.

Declare Scope posix_scope.
Delimit Scope posix_scope with posix.
Notation "x <- p ;; q" := (bind p (fun x => q))
  (at level 100, p at next level, right associativity) : posix_scope.
Notation "p ;; q" := (bind p (fun _ => q))
  (at level 100, right associativity) : posix_scope.

(** [open(path, O_RDONLY)]: a fresh descriptor on the contents of the file,
    or -1 when there is no such file. *)
Definition open (path : list ascii) : Run Z :=
  fun fs =>
    match disk fs path with
    | Some content =>
        (Value (Z.of_nat (next_fd fs)),
         {| disk := disk fs; fds := <[Z.of_nat (next_fd fs) := content]> (fds fs);
            next_fd := S (next_fd fs); read_fails := read_fails fs;
            stdout := stdout fs; stderr := stderr fs; cause := cause fs |})
    | None =>
        (Value (-1),
         {| disk := disk fs; fds := fds fs; next_fd := next_fd fs;
            read_fails := read_fails fs; stdout := stdout fs;
            stderr := stderr fs; cause := Some NoSuchFile |})
    end.

(** [read(fd, buf, count)] on a regular file: as many bytes as remain,
    [count] at most, are copied to the start of [buf], and their number is
    returned with the array; -1 when the descriptor is not open or the
    device fails. *)
Definition read (fd : Z) (buf : list ascii) (count : nat) : Run (Z * list ascii) :=
  fun fs =>
    match fds fs !! fd with
    | Some rest =>
        if read_fails fs
        then (Value (-1, buf),
              {| disk := disk fs; fds := fds fs; next_fd := next_fd fs;
                 read_fails := read_fails fs; stdout := stdout fs;
                 stderr := stderr fs; cause := Some DeviceError |})
        else (Value (Z.of_nat (length (take count rest)),
                     take count rest ++ drop (length (take count rest)) buf),
              {| disk := disk fs; fds := <[fd := drop count rest]> (fds fs);
                 next_fd := next_fd fs; read_fails := read_fails fs;
                 stdout := stdout fs; stderr := stderr fs; cause := cause fs |})
    | None =>
        (Value (-1, buf),
         {| disk := disk fs; fds := fds fs; next_fd := next_fd fs;
            read_fails := read_fails fs; stdout := stdout fs;
            stderr := stderr fs; cause := Some BadDescriptor |})
    end.

(** [close(fd)]. *)
Definition close (fd : Z) : Run unit :=
  fun fs =>
    (Value tt,
     {| disk := disk fs; fds := delete fd (fds fs); next_fd := next_fd fs;
        read_fails := read_fails fs; stdout := stdout fs; stderr := stderr fs;
        cause := cause fs |}).

(** [printf] of an already formatted string. *)
Definition printf (s : list ascii) : Run unit :=
  fun fs =>
    (Value tt,
     {| disk := disk fs; fds := fds fs; next_fd := next_fd fs;
        read_fails := read_fails fs; stdout := stdout fs ++ s;
        stderr := stderr fs; cause := cause fs |}).

(** [perror(s)]: the text [s] and the cause of the last failure go to
    standard error. *)
Definition perror (s : list ascii) : Run unit :=
  fun fs =>
    (Value tt,
     {| disk := disk fs; fds := fds fs; next_fd := next_fd fs;
        read_fails := read_fails fs; stdout := stdout fs;
        stderr := stderr fs ++
                  [(s, match cause fs with Some c => c | None => NoSuchFile end)];
        cause := cause fs |}).

(** [exit(status)]. *)
Definition exit {A : Type} (status : Z) : Run A := fun fs => (Exits status, fs).

(** [buf[i] = c] for an [int] index: a store outside the array is
    undefined. *)
Definition store_at (buf : list ascii) (i : Z) (c : ascii) : Run (list ascii) :=
  fun fs =>
    if (0 <=? i) && (i <? Z.of_nat (length buf))
    then (Value (<[Z.to_nat i := c]> buf), fs)
    else (Undef, fs).

End Posix.

(** ** The program that prints a file *)

Module ReadExt2File.
Import CStr Posix.
Local Open Scope posix_scope.

(** [int main()] of the file reader, from the contents the array [buffer]
    of 100 characters happens to have.  The locals [fd2] and [pid] are never
    used. *)
Definition main (buffer : list ascii) : Run Z :=
  fd1 <- open (lit "hello.txt") ;;
  if fd1 <? 0 then
    perror (lit "Failed to open hello in child") ;;
    exit 1
  else
    r <- read fd1 buffer 100 ;;
    let length := fst r in
    let buffer := snd r in
    if length <? 0 then
      perror (lit "Failed to read from hello in child") ;;
      close fd1 ;;
      exit 1
    else
      buffer <- store_at buffer length NUL ;;
      printf (lit "Content of hello: " ++ c_str buffer ++ [LF]) ;;
      close fd1 ;;
      ret 0.

End ReadExt2File.

(** ** The counters of the test report *)

Module Report.
Import CStr.

(** [#define TEST_PASSED 1] and [#define TEST_FAILED 0] *)
Definition TEST_PASSED : Z := 1.
Definition TEST_FAILED : Z := 0.

(** The largest [int]. *)
Definition INT_MAX : Z := 2 ^ 31 - 1.

(** The globals [total_tests], [passed_tests] and [failed_tests], and what
    was printed so far. *)
Record Tests : Type := {
  total_tests : Z;
  passed_tests : Z;
  failed_tests : Z;
  output : list ascii
}.

(** [int total_tests = 0; int passed_tests = 0; int failed_tests = 0;] *)
Definition start : Tests :=
  {| total_tests := 0; passed_tests := 0; failed_tests := 0; output := [] |}.

(** A function that returns nothing: from the state before to the state
    after, or [None] when it runs into undefined behaviour. *)
Definition Step : Type := Tests -> option Tests.

Definition andthen (p q : Step) : Step :=
  fun t => match p t with Some t' => q t' | None => None end.

Declare Scope report_scope.
Delimit Scope report_scope with report.
Notation "p ;; q" := (andthen p q)
  (at level 100, right associativity) : report_scope.
Local Open Scope report_scope.

(** [x++] on an [int]: undefined at the largest value. *)
Definition incr (x : Z) : option Z :=
  if x <? INT_MAX then Some (x + 1) else None.

Definition printf (s : list ascii) : Step :=
  fun t =>
    Some {| total_tests := total_tests t; passed_tests := passed_tests t;
            failed_tests := failed_tests t; output := output t ++ s |}.

Definition rule : list ascii :=
  lit "━━━━━━━━━━━━━━━━━━━━━━━━━━━━━━━━━━━━━━━━━━━━━━━━━━━━━━━━━━━━━━━━━━━━".

(** [void print_header(const char *lab_name)] *)
Definition print_header (lab_name : list ascii) : Step :=
  printf [LF] ;;
  printf (rule ++ [LF]) ;;
  printf (lit "  🧪 Testing: " ++ lab_name ++ [LF]) ;;
  printf (rule ++ [LF]).

(** [void print_result(const char *test_name, int result)] *)
Definition print_result (test_name : list ascii) (result : Z) : Step :=
  fun t =>
    match incr (total_tests t) with
    | None => None
    | Some total =>
        if result =? TEST_PASSED then
          match incr (passed_tests t) with
          | None => None
          | Some passed =>
              Some {| total_tests := total; passed_tests := passed;
                      failed_tests := failed_tests t;
                      output := output t ++ lit "  ✅ [PASS] " ++ test_name ++ [LF] |}
          end
        else
          match incr (failed_tests t) with
          | None => None
          | Some failed =>
              Some {| total_tests := total; passed_tests := passed_tests t;
                      failed_tests := failed;
                      output := output t ++ lit "  ❌ [FAIL] " ++ test_name ++ [LF] |}
          end
    end.

(** [void test_lab8()] *)
Definition test_lab8 : Step :=
  print_header (lit "Lab 8: Semaphore Synchronization") ;;
  printf (lit "  [Info] Semaphore implementation verified at kernel level" ++ [LF]) ;;
  printf (lit "  [Info] P/V operations: Acquire (P) and Release (V) working" ++ [LF]) ;;
  print_result (lit "Semaphore P/V mechanism") TEST_PASSED.

(** [void test_lab10()] *)
Definition test_lab10 : Step :=
  print_header (lit "Lab 10: Memory Protection (mprotect)") ;;
  printf (lit "  [Info] mprotect system call implemented" ++ [LF]) ;;
  printf (lit "  [Info] Page table permission modification supported" ++ [LF]) ;;
  print_result (lit "mprotect() system call") TEST_PASSED.

(** [void test_lab11()] *)
Definition test_lab11 : Step :=
  print_header (lit "Lab 11: Page Fault Handler & Demand Paging") ;;
  printf (lit "  [Info] Page fault handler verified at kernel level" ++ [LF]) ;;
  printf (lit "  [Info] Lazy stack allocation: Stack pages allocated on-demand" ++ [LF]) ;;
  printf (lit "  [Info] Instruction/Load/Store page faults handled correctly" ++ [LF]) ;;
  print_result (lit "Page fault handler (InstructionPageFault)") TEST_PASSED ;;
  print_result (lit "Page fault handler (LoadPageFault)") TEST_PASSED ;;
  print_result (lit "Page fault handler (StorePageFault)") TEST_PASSED ;;
  print_result (lit "Demand paging (lazy allocation)") TEST_PASSED.

(** [void test_lab13()] *)
Definition test_lab13 : Step :=
  print_header (lit "Lab 13: VirtIO Block Device") ;;
  printf (lit "  [Info] VirtIO MMIO devices detected during boot" ++ [LF]) ;;
  printf (lit "  [Info] Block device read/write operations supported" ++ [LF]) ;;
  print_result (lit "VirtIO block device detection") TEST_PASSED ;;
  print_result (lit "Block device read operation") TEST_PASSED ;;
  print_result (lit "Block device write operation") TEST_PASSED.

(** Calls of [print_result] one after the other. *)
Fixpoint print_results (calls : list (list ascii * Z)) : Step :=
  match calls with
  | [] => Some
  | (test_name, result) :: more =>
      print_result test_name result ;; print_results more
  end.

(** How many of the calls report [TEST_PASSED]. *)
Definition passes (calls : list (list ascii * Z)) : nat :=
  length (List.filter (fun c => snd c =? TEST_PASSED) calls).

(** The counters add up and none is negative. *)
Definition consistent (t : Tests) : Prop :=
  total_tests t = passed_tests t + failed_tests t /\
  0 <= passed_tests t /\ 0 <= failed_tests t.

End Report.

(** ** The file tests of the dashboard *)

Module Dashboard.
Import CStr Posix.
Local Open Scope posix_scope.

(** [void test_lab14_ext2()], from the contents the array [buf] of 100
    characters happens to have. *)
Definition test_lab14_ext2 (buf : list ascii) : Run unit :=
  printf ([LF] ++ lit "[Lab 14] Testing Ext2 Filesystem..." ++ [LF]) ;;
  fd <- open (lit "hello.txt") ;;
  if fd <? 0 then
    printf (lit "  âŒ Failed to open hello.txt from Ext2" ++ [LF]) ;;
    ret tt
  else
    r <- read fd buf (length buf - 1) ;;
    let len := fst r in
    let buf := snd r in
    (if len >? 0 then
       buf <- store_at buf len NUL ;;
       printf (lit "  Read from Ext2: " ++ c_str buf ++ [LF]) ;;
       printf (lit "  âœ… Ext2 test passed!" ++ [LF])
     else
       printf (lit "  âŒ Failed to read from Ext2" ++ [LF])) ;;
    close fd.

End Dashboard.

(** ** Further sample inputs *)

Module Cases.
Import CStr Kernel Posix.

(** An empty line before a command. *)
Definition empty_line : World :=
  boot (LF :: lit ("/bin/true" ++ Demo.nl)) [] Demo.progs.


(** An array of 100 characters with some contents. *)
Definition buffer100 : list ascii := replicate 100 "x"%char.

(** A system on which [hello.txt] holds [content]. *)
Definition with_hello (content : list ascii) (fails : bool) : Files :=
  {| disk := fun path => if decide (path = lit "hello.txt") then Some content else None;
     fds := ∅; next_fd := 3; read_fails := fails;
     stdout := []; stderr := []; cause := None |}.

(** A system without the file. *)
Definition without_hello : Files :=
  {| disk := fun _ => None; fds := ∅; next_fd := 3; read_fails := false;
     stdout := []; stderr := []; cause := None |}.

(** Three results: one pass, one failure, one value that is neither. *)
Definition three_results : list (list ascii * Z) :=
  [(lit "first", 1); (lit "second", 0); (lit "third", 2)].

End Cases.

(** ** What the shell writes and reads, pass by pass *)

Module Transcript.
Import CStr Kernel Session.

(** Whether an entry of the record is a write to standard output or a read
    from standard input by the process [me]. *)
Definition is_io (me : Z) (e : Z * Event) : bool :=
  (fst e =? me) &&
  match snd e with
  | EvOut _ | EvRead _ => true
  | _ => false
  end.

(** The writes to standard output and the reads of process [me] in a
    record, in the order in which they were made. *)
Definition shell_io (me : Z) (l : list (Z * Event)) : list Event :=
  map snd (List.filter (is_io me) l).


End Transcript.

(** ** Facts about C strings and the line reader *)

Module CStrFacts.
Import CStr.

Lemma c_str_app_NUL (a r : list ascii) : c_str (a ++ NUL :: r) = c_str a.
Proof.
  induction a as [|c a IH]; simpl.
  - reflexivity.
  - destruct (Ascii.eqb c NUL); [reflexivity | by rewrite IH].
Qed.

Lemma c_str_length (a : list ascii) : (length (c_str a) <= length a)%nat.
Proof.
  induction a as [|c a IH]; simpl; [lia|].
  destruct (Ascii.eqb c NUL); simpl; lia.
Qed.

Lemma c_str_take (a : list ascii) : c_str a = take (strlen a) a.
Proof.
  unfold strlen. induction a as [|c a IH]; simpl; [reflexivity|].
  destruct (Ascii.eqb c NUL); simpl; [reflexivity | by rewrite <- IH].
Qed.

Lemma c_str_no_NUL (a : list ascii) : NUL ∉ a → c_str a = a.
Proof.
  induction a as [|c a IH]; simpl; intros H; [reflexivity|].
  apply not_elem_of_cons in H as [Hc Ha].
  destruct (Ascii.eqb_spec c NUL) as [->|_]; [done|]. by rewrite IH.
Qed.

(** Writing a terminator inside the string cuts the string there. *)
Lemma c_str_insert_NUL (buf : list ascii) (i : nat) :
  (i < strlen buf)%nat → c_str (<[i := NUL]> buf) = take i (c_str buf).
Proof.
  unfold strlen. revert i. induction buf as [|c buf IH]; intros i; simpl.
  - lia.
  - destruct (Ascii.eqb c NUL) eqn:E; simpl; [lia|].
    destruct i as [|i]; simpl.
    + reflexivity.
    + intros Hi. rewrite E. f_equal. apply IH. lia.
Qed.

Lemma read_line_app (n : nat) (input : list ascii) :
  (read_line n input).1 ++ (read_line n input).2 = input.
Proof.
  revert input. induction n as [|n IH]; intros [|c t]; simpl; try reflexivity.
  destruct (Ascii.eqb c LF); simpl; [reflexivity|].
  specialize (IH t). destruct (read_line n t) as [l r]. simpl in *. by rewrite IH.
Qed.

Lemma read_line_length (n : nat) (input : list ascii) :
  (length (read_line n input).1 <= n)%nat.
Proof.
  revert input. induction n as [|n IH]; intros [|c t]; simpl; try lia.
  destruct (Ascii.eqb c LF); simpl; [lia|].
  specialize (IH t). destruct (read_line n t) as [l r]. simpl in *. lia.
Qed.

Lemma read_line_head (n : nat) (c : ascii) (t : list ascii) :
  ∃ l, (read_line (S n) (c :: t)).1 = c :: l.
Proof.
  simpl. destruct (Ascii.eqb c LF); [by exists []|].
  destruct (read_line n t) as [l r]. by exists l.
Qed.

(** A whole line that fits: the line and its terminator are taken. *)
Lemma read_line_line (n : nat) (line rest : list ascii) :
  LF ∉ line → (length line < n)%nat →
  read_line n (line ++ LF :: rest) = (line ++ [LF], rest).
Proof.
  revert n. induction line as [|c line IH]; intros n Hlf Hlen; simpl in *.
  - destruct n; [lia|]. reflexivity.
  - destruct n; [lia|]. apply not_elem_of_cons in Hlf as [Hc Hl].
    simpl. destruct (Ascii.eqb_spec c LF) as [->|_]; [done|].
    rewrite IH; [reflexivity | done | lia].
Qed.

Lemma store_length (chunk s : list ascii) :
  (length chunk < length s)%nat → length (store chunk s) = length s.
Proof.
  intros H. unfold store. rewrite length_app. simpl. rewrite length_drop. lia.
Qed.

Lemma strlen_store (chunk s : list ascii) : strlen (store chunk s) = strlen chunk.
Proof. unfold strlen, store. by rewrite c_str_app_NUL. Qed.

(** The closed form of [strip_last] after a read: whatever the array held,
    the string left in it is the string read without its last character. *)
Lemma strip_last_store (chunk s : list ascii) :
  (0 < strlen chunk)%nat → (length chunk < length s)%nat →
  (length s <= NUM)%nat →
  ∃ command2,
    strip_last (store chunk s) = Some command2 ∧
    c_str command2 = take (strlen chunk - 1) chunk ∧
    length command2 = length s ∧
    command2 = <[(strlen chunk - 1)%nat := NUL]> (store chunk s).
Proof.
  intros Hpos Hlen Hnum.
  pose proof (c_str_length chunk) as Hle. fold (strlen chunk) in Hle.
  unfold strip_last. rewrite strlen_store, store_length by done.
  assert (Hidx : (Z.of_nat (strlen chunk) - 1) mod 2 ^ SIZE_BITS
                 = Z.of_nat (strlen chunk - 1)).
  { rewrite Z.mod_small; [lia|]. unfold SIZE_BITS, NUM in *. lia. }
  rewrite Hidx, Nat2Z.id.
  destruct (Z.ltb_spec (Z.of_nat (strlen chunk - 1)) (Z.of_nat (length s))); [|lia].
  eexists. split; [reflexivity|]. split.
  - rewrite c_str_insert_NUL by (rewrite strlen_store; lia).
    unfold store. rewrite c_str_app_NUL, c_str_take, take_take. f_equal. lia.
  - split; [|reflexivity]. by rewrite length_insert, store_length.
Qed.

(** An empty string in the array: the index wraps around and the store
    falls outside the array. *)
Lemma strip_last_empty (chunk s : list ascii) :
  strlen chunk = 0%nat → (length chunk < length s)%nat → (length s <= NUM)%nat →
  strip_last (store chunk s) = None.
Proof.
  intros H0 Hlen Hnum. unfold strip_last.
  rewrite strlen_store, store_length, H0 by done.
  change ((Z.of_nat 0 - 1) mod 2 ^ SIZE_BITS) with 18446744073709551615.
  destruct (Z.ltb_spec 18446744073709551615 (Z.of_nat (length s))); [|done].
  unfold NUM in *. lia.
Qed.

Lemma read_line_rest (n : nat) (input : list ascii) :
  (read_line n input).2 = drop (length (read_line n input).1) input.
Proof.
  pose proof (read_line_app n input) as H.
  rewrite <- H at 3. by rewrite drop_app_length.
Qed.

Lemma strlen_cons_pos (c : ascii) (l : list ascii) : c ≠ NUL → (0 < strlen (c :: l))%nat.
Proof.
  intros Hc. unfold strlen. simpl.
  destruct (Ascii.eqb_spec c NUL); [done | simpl; lia].
Qed.

End CStrFacts.

(** ** Facts about runs of [execute] and of a pass of the loop *)

Module RunFacts.
Import CStr Sys Shell Kernel Session CStrFacts.

Section Execute.
Context {A : Type}.
Variable command : list ascii.
Variable f : Z → Prog A.
Variable w : World.

Lemma run_execute_failed :
  creation_succeeds w = false →
  run (bind (execute command) f) w = run (f 0) (creation_failed w).
Proof.
  unfold creation_succeeds, creation_failed.
  destruct (forks w) as [|[] fs] eqn:E; intros H; try discriminate.
  simpl. rewrite E. reflexivity.
Qed.

Lemma run_execute_reaped (st : Z) :
  creation_succeeds w = true →
  child_status w (c_str command) = Some st →
  run (bind (execute command) f) w = run (f 0) (reaped w (c_str command) st).
Proof.
  unfold creation_succeeds, child_status, reaped, child_events, child_input, child_pid.
  intros Hf Hst. simpl.
  destruct (forks w) as [|[] fs] eqn:E; try discriminate; simpl;
    rewrite lookup_insert_eq; simpl;
    destruct (programs w (c_str command)) as [img|] eqn:P; simpl;
    unfold run_image; simplify_eq; rewrite ?Hst; simpl;
    rewrite insert_insert_eq; unfold emit; simpl;
    rewrite <- ?app_assoc; reflexivity.
Qed.

Lemma run_execute_blocked :
  creation_succeeds w = true →
  child_status w (c_str command) = None →
  res (run (bind (execute command) f) w) = Hung ∧
  log (final (run (bind (execute command) f) w))
  = log w ++ (self w, EvFork (child_pid w)) :: child_events w (c_str command).
Proof.
  unfold creation_succeeds, child_status, child_events, child_pid.
  intros Hf Hst. simpl.
  destruct (forks w) as [|[] fs] eqn:E; try discriminate; simpl;
    rewrite lookup_insert_eq; simpl;
    destruct (programs w (c_str command)) as [img|] eqn:P; simpl; try discriminate;
    unfold run_image; rewrite Hst; simpl; (split; [reflexivity|]);
    by rewrite <- app_assoc.
Qed.
End Execute.

Lemma run_execute_assoc {A B : Type} (command : list ascii)
    (g : Z → Prog A) (f : A → Prog B) (w : World) :
  run (bind (bind (execute command) g) f) w
  = run (bind (execute command) (λ x, bind (g x) f)) w.
Proof. simpl. destruct (forks w) as [|[] fs]; reflexivity. Qed.

Section Pass.
Context {A : Type}.
Variable command : list ascii.
Variable f : list ascii → Prog A.
Variable w : World.

Lemma run_loop_body_eof :
  stdin w = [] →
  run (bind (loop_body command) f) w
  = {| res := Crashed; final := emit EvEof (set_stdin [] (emit (EvOut prompt) w)) |}.
Proof. intros H. simpl. rewrite H. reflexivity. Qed.

Lemma run_loop_body_read (c : ascii) (t : list ascii) :
  stdin w = c :: t → c ≠ NUL → length command = NUM →
  ∃ command2,
    c_str command2 = command_of (consumed NUM (stdin w)) ∧
    length command2 = NUM ∧
    run (bind (loop_body command) f) w
    = run (bind (execute command2) (λ _, f command2)) (at_dispatch w) ∧
    command2 = next_array command (consumed NUM (stdin w)).
Proof.
  intros Hin Hc Hlen.
  destruct (read_line_head (NUM - 2) c t) as [l Hl].
  pose proof (read_line_length (NUM - 1) (c :: t)) as Hn.
  pose proof (read_line_rest (NUM - 1) (c :: t)) as Hr.
  change (S (NUM - 2)) with (NUM - 1)%nat in Hl.
  destruct (strip_last_store (c :: l) command) as (command2 & Hs & Hstr & Hl2 & Heq).
  { by apply strlen_cons_pos. }
  { rewrite <- Hl, Hlen. unfold NUM in *. lia. }
  { lia. }
  exists command2. unfold at_dispatch, next_array, consumed. rewrite Hin, Hl.
  split; [done|]. split; [lia|]. split; [|done].
  cbn [loop_body bind printf run]. unfold fgets, consumed. cbn [emit stdin].
  rewrite Hin. destruct (read_line (NUM - 1) (c :: t)) as [chunk rest].
  simpl in Hl, Hr. subst chunk rest. cbn [bind run]. rewrite Hs.
  cbn [bind run printf]. rewrite Hstr, run_execute_assoc.
  reflexivity.
Qed.

End Pass.

(** A pass whose input starts with the string terminator. *)
Lemma run_loop_body_NUL_final {A : Type} (command : list ascii)
    (f : list ascii → Prog A) (w : World) (t : list ascii) :
  stdin w = NUL :: t → length command = NUM →
  run (bind (loop_body command) f) w
  = {| res := Crashed;
       final := emit (EvRead (consumed NUM (stdin w)))
                  (set_stdin (read_line (NUM - 1) (stdin w)).2 (emit (EvOut prompt) w)) |}.
Proof.
  intros Hin Hlen.
  destruct (read_line_head (NUM - 2) NUL t) as [l Hl].
  pose proof (read_line_length (NUM - 1) (NUL :: t)) as Hn.
  change (S (NUM - 2)) with (NUM - 1)%nat in Hl.
  assert (Hs : strip_last (store (NUL :: l) command) = None).
  { apply strip_last_empty; [reflexivity| |lia].
    rewrite <- Hl, Hlen. unfold NUM in *. lia. }
  cbn [loop_body bind printf run]. unfold fgets, consumed. cbn [emit stdin].
  rewrite Hin. destruct (read_line (NUM - 1) (NUL :: t)) as [chunk rest].
  simpl in Hl. subst chunk. cbn [bind run]. rewrite Hs. reflexivity.
Qed.

(** Nothing is ever taken out of the record of a session. *)
Lemma run_log_grows {A : Type} (p : Prog A) :
  ∀ w, ∃ tail, log (final (run p w)) = log w ++ tail.
Proof.
  induction p as [a|k IH|s k IH|s size k IH|k IH|path argv k IH|arg k IH|s k IH|st|];
    intros w; cbn [run].
  - exists []. by rewrite app_nil_r.
  - destruct (IH (emit EvUnbuffered w)) as [tl ->]. simpl. rewrite <- app_assoc. eauto.
  - destruct (IH (emit (EvOut s) w)) as [tl ->]. simpl. rewrite <- app_assoc. eauto.
  - destruct (fgets s size (stdin w)) as [[s'|] rest].
    + edestruct (IH (Some s')) as [tl ->]. simpl. rewrite <- app_assoc. eauto.
    + edestruct (IH None) as [tl ->]. simpl. rewrite <- app_assoc. eauto.
  - destruct (forks w) as [|[] fs].
    + edestruct (IH (Z.pos (next_pid w))) as [tl ->]. simpl. rewrite <- app_assoc. eauto.
    + edestruct (IH (Z.pos (next_pid w))) as [tl ->]. simpl. rewrite <- app_assoc. eauto.
    + edestruct (IH (-1)) as [tl ->]. simpl. rewrite <- app_assoc. eauto.
  - destruct (programs w path) as [img|].
    + unfold run_image. destruct (img_status img); simpl; rewrite <- ?app_assoc; eauto.
    + edestruct IH as [tl ->]. simpl. rewrite <- app_assoc. eauto.
  - destruct (procs w !! arg) as [[body|st]|].
    + destruct (cr_status (body (stdin w))) as [st|].
      * edestruct (IH st) as [tl ->]. simpl. rewrite <- !app_assoc. eauto.
      * simpl. eauto.
    + edestruct (IH (-1)) as [tl ->]. simpl. rewrite <- app_assoc. eauto.
    + edestruct (IH (-1)) as [tl ->]. simpl. rewrite <- app_assoc. eauto.
  - destruct (IH (emit (EvErr s (errno w)) w)) as [tl ->]. simpl. rewrite <- app_assoc. eauto.
  - simpl. eauto.
  - exists []. by rewrite app_nil_r.
Qed.

End RunFacts.

(** ** Facts about a pass over a typed line *)

Module LineFacts.
Import CStr Sys Shell Kernel Session CStrFacts RunFacts.

Lemma is_line_spec (line : list ascii) :
  is_line line = true →
  (NUL ∉ line) ∧ (LF ∉ line) ∧ (length line < NUM - 1)%nat.
Proof.
  unfold is_line. intros H. apply andb_prop in H as [Hall Hlen].
  apply Nat.ltb_lt in Hlen. split; [|split; [|done]].
  - induction line as [|c l IH]; [apply not_elem_of_nil|].
    simpl in Hall. apply andb_prop in Hall as [Hc Hl].
    apply andb_prop in Hc as [Hc _]. apply not_elem_of_cons. split.
    + intros <-. by vm_compute in Hc.
    + apply IH; [done | simpl in Hlen; unfold NUM in *; lia].
  - induction line as [|c l IH]; [apply not_elem_of_nil|].
    simpl in Hall. apply andb_prop in Hall as [Hc Hl].
    apply andb_prop in Hc as [_ Hc]. apply not_elem_of_cons. split.
    + intros <-. by vm_compute in Hc.
    + apply IH; [done | simpl in Hlen; unfold NUM in *; lia].
Qed.

Lemma consumed_line (line rest : list ascii) :
  is_line line = true → consumed NUM (line ++ LF :: rest) = line ++ [LF].
Proof.
  intros H. apply is_line_spec in H as (_ & Hlf & Hlen).
  unfold consumed. by rewrite read_line_line.
Qed.

Lemma command_of_line (line : list ascii) :
  is_line line = true → command_of (line ++ [LF]) = line.
Proof.
  intros H. apply is_line_spec in H as (Hnul & _ & _).
  unfold command_of, strlen. rewrite c_str_no_NUL.
  - rewrite length_app. simpl.
    replace (length line + 1 - 1)%nat with (length line) by lia.
    by rewrite take_app_length.
  - intros [Hin|Hin]%elem_of_app; [done|].
    apply list_elem_of_singleton in Hin. discriminate.
Qed.

Lemma at_dispatch_line (w : World) (line rest : list ascii) :
  is_line line = true → stdin w = line ++ LF :: rest →
  at_dispatch w
  = emit (EvOut (echo line))
      (emit (EvRead (line ++ [LF])) (set_stdin rest (emit (EvOut prompt) w))).
Proof.
  intros Hl Hin. unfold at_dispatch. rewrite Hin, consumed_line, command_of_line by done.
  replace (line ++ LF :: rest) with ((line ++ [LF]) ++ rest) by by rewrite <- app_assoc.
  by rewrite drop_app_length.
Qed.

Lemma line_head (line rest : list ascii) :
  is_line line = true → ∃ c t, line ++ LF :: rest = c :: t ∧ c ≠ NUL.
Proof.
  intros H. apply is_line_spec in H as (Hnul & _ & _).
  destruct line as [|c l]; simpl.
  - exists LF, rest. split; [done | discriminate].
  - exists c, (l ++ LF :: rest). split; [done|].
    intros ->. apply Hnul. left.
Qed.

(** A pass over a typed line, up to the point where the command is handed
    over. *)
Lemma run_loop_body_line {A : Type} (command : list ascii)
    (f : list ascii → Prog A) (w : World) (line rest : list ascii) :
  length command = NUM → is_line line = true → stdin w = line ++ LF :: rest →
  ∃ command2,
    c_str command2 = line ∧ length command2 = NUM ∧
    run (bind (loop_body command) f) w
    = run (bind (execute command2) (λ _, f command2))
        (emit (EvOut (echo line))
           (emit (EvRead (line ++ [LF])) (set_stdin rest (emit (EvOut prompt) w)))).
Proof.
  intros Hlen Hl Hin.
  destruct (line_head line rest Hl) as (c & t & Hct & Hc).
  destruct (run_loop_body_read command f w c t) as (command2 & Hstr & Hl2 & Hrun & _);
    [congruence | done | done |].
  exists command2. rewrite Hin, consumed_line, command_of_line in Hstr by done.
  by rewrite <- (at_dispatch_line w line rest).
Qed.

End LineFacts.

(** ** Facts about worlds that differ in exit statuses only *)

Module StatusFacts.
Import CStr Sys Shell Kernel Session CStrFacts RunFacts LineFacts.

Lemma same_but_status_emit (e : Event) (w1 w2 : World) :
  same_but_status w1 w2 → same_but_status (emit e w1) (emit e w2).
Proof.
  intros (Hs & Hi & Hf & Hn & He & Hl & Hp). repeat split; simpl; try done.
  rewrite !map_app, Hl, Hs. done.
Qed.

Lemma same_but_status_set_stdin (input : list ascii) (w1 w2 : World) :
  same_but_status w1 w2 → same_but_status (set_stdin input w1) (set_stdin input w2).
Proof. intros (Hs & Hi & Hf & Hn & He & Hl & Hp). repeat split; simpl; done. Qed.

Lemma same_but_status_at_dispatch (w1 w2 : World) :
  same_but_status w1 w2 → same_but_status (at_dispatch w1) (at_dispatch w2).
Proof.
  intros H. pose proof H as (Hs & Hi & _). unfold at_dispatch. rewrite Hi.
  by do 2 apply same_but_status_emit; apply same_but_status_set_stdin,
    same_but_status_emit.
Qed.

Lemma same_but_status_creation_failed (w1 w2 : World) :
  same_but_status w1 w2 → same_but_status (creation_failed w1) (creation_failed w2).
Proof.
  intros (Hs & Hi & Hf & Hn & He & Hl & Hp). unfold creation_failed.
  do 2 apply same_but_status_emit. repeat split; simpl; try done. by rewrite Hf.
Qed.

Lemma same_events (w1 w2 : World) (path : list ascii) :
  same_but_status w1 w2 →
  map forget_status (child_events w1 path) = map forget_status (child_events w2 path).
Proof.
  intros (Hs & Hi & Hf & Hn & He & Hl & Hp). specialize (Hp path).
  unfold child_events, child_pid, same_image in *. rewrite Hn.
  destruct (programs w1 path) as [i1|], (programs w2 path) as [i2|]; try done.
  destruct Hp as (_ & -> & Hst).
  destruct (img_status i1), (img_status i2); try done.
  - by destruct Hst as [_ Hst]; specialize (Hst eq_refl).
  - by destruct Hst as [Hst _]; specialize (Hst eq_refl).
Qed.

Lemma same_but_status_reaped (w1 w2 : World) (path : list ascii) (s1 s2 : Z) :
  same_but_status w1 w2 →
  same_but_status (reaped w1 path s1) (reaped w2 path s2).
Proof.
  intros H. pose proof (same_events w1 w2 path H) as Hev.
  destruct H as (Hs & Hi & Hf & Hn & He & Hl & Hp).
  unfold same_but_status, reaped. cbn [self stdin log forks next_pid errno programs].
  repeat split; try done.
  - unfold child_input. specialize (Hp path). unfold same_image in Hp.
    destruct (programs w1 path) as [i1|], (programs w2 path) as [i2|]; try done.
    destruct Hp as (-> & _). by rewrite Hi.
  - by rewrite Hf.
  - by rewrite Hn.
  - rewrite !map_app, !map_cons, !map_app, Hl, Hev. simpl.
    unfold child_pid. by rewrite Hs, Hn.
Qed.

Lemma same_child_status (w1 w2 : World) (path : list ascii) :
  same_but_status w1 w2 →
  child_status w1 path = None ↔ child_status w2 path = None.
Proof.
  intros (_ & _ & _ & _ & _ & _ & Hp). specialize (Hp path).
  unfold child_status, same_image in *.
  destruct (programs w1 path) as [i1|], (programs w2 path) as [i2|]; try done.
  by destruct Hp as (_ & _ & Hst).
Qed.

(** The statuses children end with change nothing in what the loop does
    and computes. *)
Lemma loop_same_for_any_status (n : nat) :
  ∀ (command : list ascii) (w1 w2 : World),
    length command = NUM → same_but_status w1 w2 →
    res (run (loop n command) w1) = res (run (loop n command) w2) ∧
    map forget_status (log (final (run (loop n command) w1)))
    = map forget_status (log (final (run (loop n command) w2))).
Proof.
  induction n as [|n IH]; intros command w1 w2 Hlen Hw.
  { destruct Hw as (Hs & Hi & Hf & Hn & He & Hl & Hp). done. }
  change (loop (S n) command) with (bind (loop_body command) (loop n)).
  pose proof Hw as (Hs & Hi & Hf & Hn & He & Hl & Hp).
  destruct (stdin w1) as [|c t] eqn:Hin1; symmetry in Hi.
  - rewrite !run_loop_body_eof by done. simpl. by rewrite !map_app, Hl, Hs.
  - destruct (Ascii.eqb_spec c NUL) as [->|Hc].
    + rewrite !(run_loop_body_NUL_final _ _ _ t) by done. simpl.
      rewrite Hin1, Hi, !map_app, Hl, Hs. done.
    + destruct (run_loop_body_read command (loop n) w1 c t)
        as (c1 & Hs1 & Hl1 & -> & E1); [done..|].
      destruct (run_loop_body_read command (loop n) w2 c t)
        as (c2 & Hs2 & Hl2 & -> & E2); [done..|].
      assert (c2 = c1) as -> by (rewrite E1, E2, Hin1, Hi; done).
      pose proof (same_but_status_at_dispatch w1 w2 Hw) as Hd.
      set (d1 := at_dispatch w1) in *. set (d2 := at_dispatch w2) in *.
      assert (Hcs : creation_succeeds d1 = creation_succeeds d2).
      { unfold creation_succeeds. by destruct Hd as (_ & _ & -> & _). }
      destruct (creation_succeeds d1) eqn:Hf1; symmetry in Hcs.
      * pose proof (same_child_status d1 d2 (c_str c1) Hd) as Hst.
        destruct (child_status d1 (c_str c1)) as [s1|] eqn:Hst1,
                 (child_status d2 (c_str c1)) as [s2|] eqn:Hst2.
        -- rewrite (run_execute_reaped _ _ d1 s1), (run_execute_reaped _ _ d2 s2) by done.
           apply IH; [done|]. by apply same_but_status_reaped.
        -- by destruct Hst as [_ Hst]; specialize (Hst eq_refl).
        -- by destruct Hst as [Hst _]; specialize (Hst eq_refl).
        -- destruct (run_execute_blocked c1 (λ _, loop n c1) d1) as [-> ->]; [done..|].
           destruct (run_execute_blocked c1 (λ _, loop n c1) d2) as [-> ->]; [done..|].
           split; [done|].
           destruct Hd as (Hs' & _ & _ & Hn' & _ & Hl' & _).
           rewrite !map_app, !map_cons, Hl', (same_events d1 d2) by apply (same_but_status_at_dispatch _ _ Hw).
           unfold child_pid. by rewrite Hs', Hn'.
      * rewrite !run_execute_failed by done.
        apply IH; [done|]. by apply same_but_status_creation_failed.
Qed.

End StatusFacts.

(** ** The line reader *)

Module LineReader.
Import CStr Sys Shell Kernel Session CStrFacts RunFacts LineFacts.

(** C1 (not met by the code).  The claim asks that a read which finds the
    stream already ended takes the loop to a terminated state without any
    attempt to strip a terminator.  What the code does: at any point of a
    session where the input is exhausted, the next pass writes the prompt,
    [fgets] returns the null pointer, and that pointer is handed to [strlen]
    unchecked; the pass ends in undefined behaviour, and the loop has no
    other way out. *)
Theorem eof_reaches_strlen_unchecked (n : nat) (command : list ascii) (w : World) :
  res (run (loop (S n) command) (set_stdin [] w)) = Crashed ∧
  log (final (run (loop (S n) command) (set_stdin [] w)))
  = log w ++ [(self w, EvOut (lit "~ # ")); (self w, EvEof)].
Proof.
  cbn [loop]. rewrite run_loop_body_eof by reflexivity.
  split; [reflexivity|]. simpl. by rewrite <- app_assoc.
Qed.

(** C3 (not met by the code).  The claim asks that only a trailing line
    terminator is ever removed, and that a line which fills the array without
    a terminator is kept whole.  What the code does on an input of [NUM - 1]
    characters ['a'] followed by more: the [NUM - 1] characters are read, the
    last of them is overwritten, and the command echoed and handed to the
    image replacement has [NUM - 2] characters. *)
Theorem full_array_loses_last_byte :
  log (final (run (main 1 Demo.stale) Demo.long_line))
  = [(1, EvUnbuffered);
     (1, EvOut (lit ("Running Shell..." ++ Demo.nl)));
     (1, EvOut (lit "~ # "));
     (1, EvRead (replicate (NUM - 1) "a"%char));
     (1, EvOut (lit (String LF " Running command: ")
                  ++ replicate (NUM - 2) "a"%char ++ [LF]));
     (1, EvFork 2);
     (2, EvExec (replicate (NUM - 2) "a"%char) [replicate (NUM - 2) "a"%char]);
     (2, EvErr (lit "exec failed") ENOENT);
     (2, EvExit 1);
     (1, EvWait 2 1)] ∧
  stdin (final (run (main 1 Demo.stale) Demo.long_line)) = lit "bc".
Proof. vm_compute. split; reflexivity. Qed.

End LineReader.

(** ** The process supervisor *)

Module Supervisor.
Import CStr Sys Shell Kernel Session CStrFacts RunFacts LineFacts StatusFacts.

Lemma run_execute_alone (command : list ascii) (w : World) :
  run (execute command) w = run (bind (execute command) Ret) w.
Proof. simpl. destruct (forks w) as [|[] fs]; reflexivity. Qed.

(** C9.  [execute] returns 0 in every case in which it returns: after a
    creation that failed, and after the child was waited for, whatever status
    the child ended with; the rest of the program goes on from the value 0.
    (When the child never ends the call never returns.)  So two sessions
    that differ only in the statuses children end with go the same way and
    compute the same array, and their records differ in nothing but the
    statuses written in the exit and wait entries. *)
Theorem execute_returns_zero {A : Type} (command : list ascii)
    (f : Z → Prog A) (w : World) :
  res (run (execute command) w)
  = (if creation_succeeds w
     then match child_status w (c_str command) with
          | Some _ => Done 0
          | None => Hung
          end
     else Done 0) ∧
  run (bind (execute command) f) w
  = (if creation_succeeds w
     then match child_status w (c_str command) with
          | Some st => run (f 0) (reaped w (c_str command) st)
          | None => {| res := Hung; final := final (run (bind (execute command) f) w) |}
          end
     else run (f 0) (creation_failed w)) ∧
  ∀ (n : nat) (array : list ascii) (w2 : World),
    length array = NUM → same_but_status w w2 →
    res (run (loop n array) w) = res (run (loop n array) w2) ∧
    map forget_status (log (final (run (loop n array) w)))
    = map forget_status (log (final (run (loop n array) w2))).
Proof.
  split; [|split].
  - rewrite run_execute_alone. destruct (creation_succeeds w) eqn:Hc.
    + destruct (child_status w (c_str command)) as [st|] eqn:Hs.
      * by rewrite (run_execute_reaped _ _ _ st).
      * by apply run_execute_blocked.
    + by rewrite run_execute_failed.
  - destruct (creation_succeeds w) eqn:Hc.
    + destruct (child_status w (c_str command)) as [st|] eqn:Hs.
      * by apply run_execute_reaped.
      * destruct (run_execute_blocked command f w Hc Hs) as [Hr _].
        destruct (run (bind (execute command) f) w) as [r fw]. simpl in *. by subst.
    + by apply run_execute_failed.
  - intros n array w2 Hlen Hw. by apply loop_same_for_any_status.
Qed.

(** C7.  For every command, the only image-replacement call of [execute]
    is made by the child and is given the whole string of the command, not
    split in any way, as the path, and the same whole string as the single
    argument. *)
Theorem whole_line_is_path_and_argv0 (command : list ascii) (w : World) :
  ∃ evs,
    log (final (run (execute command) w)) = log w ++ evs ∧
    List.filter is_exec evs
    = if creation_succeeds w
      then [(child_pid w, EvExec (c_str command) [c_str command])]
      else [].
Proof.
  rewrite run_execute_alone.
  destruct (creation_succeeds w) eqn:Hc.
  - destruct (child_status w (c_str command)) as [st|] eqn:Hs.
    + rewrite (run_execute_reaped _ _ _ st) by done. eexists. split; [reflexivity|].
      unfold child_events. destruct (programs w (c_str command)) as [img|]; [|reflexivity].
      destruct (img_status img); reflexivity.
    + destruct (run_execute_blocked command Ret w Hc Hs) as [_ ->].
      eexists. split; [reflexivity|].
      unfold child_events. destruct (programs w (c_str command)) as [img|]; [|reflexivity].
      destruct (img_status img); reflexivity.
  - rewrite run_execute_failed by done. eexists. split.
    + simpl. rewrite <- app_assoc. reflexivity.
    + reflexivity.
Qed.

(** C2.  When the creation succeeds, the parent waits for the identifier
    the creation returned and for no other: on the parent's side the program
    is the call of wait with that very identifier, followed by the return of
    0 whatever the wait yields.  As long as that child runs the parent is
    blocked; when the child has ended, the wait returns for that very child
    after the child's last event, and only then does [execute] return; the
    entries of all other children are left as they were. *)
Theorem parent_waits_for_created_child {A : Type} (command : list ascii)
    (f : Z → Prog A) (w : World) :
  creation_succeeds w = true →
  (∃ k, bind (execute command) f = Fork k ∧
        ∀ pid : positive, k (Z.pos pid) = Wait (Z.pos pid) (λ _, f 0)) ∧
  match child_status w (c_str command) with
  | Some st =>
      ∃ w', run (bind (execute command) f) w = run (f 0) w' ∧
            log w' = log w ++ (self w, EvFork (child_pid w)) ::
                       child_events w (c_str command) ++
                       [(self w, EvWait (child_pid w) st)] ∧
            last (child_events w (c_str command)) = Some (child_pid w, EvExit st) ∧
            procs w' = <[child_pid w := Reaped st]> (procs w)
  | None =>
      res (run (bind (execute command) f) w) = Hung ∧
      List.filter is_wait (log (final (run (bind (execute command) f) w)))
      = List.filter is_wait (log w)
  end.
Proof.
  intros Hc. split.
  { eexists. split; [reflexivity|]. intros pid. reflexivity. }
  destruct (child_status w (c_str command)) as [st|] eqn:Hs.
  - exists (reaped w (c_str command) st). split; [by apply run_execute_reaped|].
    split; [reflexivity|]. split; [|reflexivity].
    unfold child_status, child_events in *.
    destruct (programs w (c_str command)) as [img|]; simpl in *.
    + by rewrite Hs.
    + by simplify_eq.
  - destruct (run_execute_blocked command f w Hc Hs) as [Hr ->].
    split; [done|]. rewrite List.filter_app.
    unfold child_status, child_events in *.
    destruct (programs w (c_str command)) as [img|]; [|done].
    rewrite Hs. simpl. by rewrite app_nil_r.
Qed.

(** C2, where the claim fails.  The command [/bin/true] on two disks whose
    program ends with 0 on the one and with 7 on the other: the creation
    succeeds on both, the code after the wait is the same whether the wait
    yields 0 or 7, and [execute] hands 0 to its caller on both; no way of
    reading what [execute] hands back gives the status of the child. *)
Lemma exit_status_is_not_retrieved :
  creation_succeeds Demo.two_commands = true ∧
  creation_succeeds Demo.two_commands' = true ∧
  child_status Demo.two_commands (c_str Demo.command_true) = Some 0 ∧
  child_status Demo.two_commands' (c_str Demo.command_true) = Some 7 ∧
  (∃ k k', execute Demo.command_true = Fork k ∧
           k (child_pid Demo.two_commands) = Wait (child_pid Demo.two_commands) k' ∧
           k' 0 = k' 7) ∧
  res (run (execute Demo.command_true) Demo.two_commands) = Done 0 ∧
  res (run (execute Demo.command_true) Demo.two_commands') = Done 0 ∧
  ¬ ∃ status_of : Z → Z,
      ∀ w r st,
        w = Demo.two_commands ∨ w = Demo.two_commands' →
        res (run (execute Demo.command_true) w) = Done r →
        child_status w (c_str Demo.command_true) = Some st →
        status_of r = st.
Proof.
  repeat (split; [reflexivity|]).
  split. { eexists _, _. split; [reflexivity|]. split; reflexivity. }
  repeat (split; [reflexivity|]).
  intros [status_of H].
  pose proof (H Demo.two_commands 0 0 (or_introl eq_refl) eq_refl eq_refl) as H0.
  pose proof (H Demo.two_commands' 0 7 (or_intror eq_refl) eq_refl eq_refl) as H7.
  rewrite H0 in H7. discriminate H7.
Qed.

(** C4.  When the image replacement fails, the child, whatever follows the
    call of [execute] in the program, writes the diagnostic [exec failed] to
    the error stream and terminates with status 1; it never comes back to the
    code after the call.  The parent sees exactly these events of the child
    before its wait returns. *)
Theorem failed_exec_ends_child {A : Type} (command : list ascii)
    (f : Z → Prog A) (w : World) :
  creation_succeeds w = true →
  programs w (c_str command) = None →
  (∃ k, bind (execute command) f = Fork k ∧
        ∀ input,
          res (run (k 0) (child_world (next_pid w) input w)) = Exited 1 ∧
          log (final (run (k 0) (child_world (next_pid w) input w)))
          = [(child_pid w, EvExec (c_str command) [c_str command]);
             (child_pid w, EvErr (lit "exec failed") ENOENT);
             (child_pid w, EvExit 1)]) ∧
  (∃ w', run (bind (execute command) f) w = run (f 0) w' ∧
         log w' = log w ++
                  [(self w, EvFork (child_pid w));
                   (child_pid w, EvExec (c_str command) [c_str command]);
                   (child_pid w, EvErr (lit "exec failed") ENOENT);
                   (child_pid w, EvExit 1);
                   (self w, EvWait (child_pid w) 1)]).
Proof.
  intros Hc Hp. split.
  - eexists. split; [reflexivity|]. intros input. simpl. rewrite Hp. simpl.
    split; reflexivity.
  - exists (reaped w (c_str command) 1). split.
    + apply run_execute_reaped; [done|]. unfold child_status. by rewrite Hp.
    + unfold reaped, child_events. simpl. by rewrite Hp.
Qed.

End Supervisor.

(** ** The loop *)

Module ShellLoop.
Import CStr Sys Shell Kernel Session CStrFacts RunFacts LineFacts.

(** Every pass opens with the prompt. *)
Lemma loop_opens_with_prompt (n : nat) (command : list ascii) (w : World) :
  ∃ tail,
    log (final (run (loop (S n) command) w)) = log w ++ (self w, EvOut prompt) :: tail.
Proof.
  change (loop (S n) command) with
    (Printf prompt (bind (bind (Fgets command NUM Ret)
       (λ cmd, match cmd with
               | None => Undefined
               | Some command1 =>
                   match strip_last command1 with
                   | None => Undefined
                   | Some command2 =>
                       bind (printf (lit (String LF " Running command: ")
                                       ++ c_str command2 ++ [LF]))
                         (λ _, bind (execute command2) (λ _, Ret command2))
                   end
               end)) (loop n))).
  cbn [run]. edestruct (@run_log_grows (list ascii)) as [tl ->].
  exists tl. simpl. by rewrite <- app_assoc.
Qed.

(** C5.  When the line read is the path of a program, a pass writes the
    prompt, reads the line, echoes it and creates the child, in this order;
    the child replaces its image and runs; if the program ends, the wait
    returns after the child's exit and only then is the next prompt written;
    if it never ends, the shell stays blocked and writes no further prompt. *)
Theorem next_prompt_after_child_ends (n : nat) (command : list ascii) (w : World)
    (line rest : list ascii) (img : Image) :
  length command = NUM → is_line line = true → stdin w = line ++ LF :: rest →
  creation_succeeds w = true → programs w line = Some img →
  match img_status img with
  | Some st =>
      ∃ tail,
        log (final (run (loop (S (S n)) command) w))
        = log w ++
          [(self w, EvOut (lit "~ # "));
           (self w, EvRead (line ++ [LF]));
           (self w, EvOut (echo line));
           (self w, EvFork (child_pid w));
           (child_pid w, EvExec line [line]);
           (child_pid w, EvOut (img_out img));
           (child_pid w, EvExit st);
           (self w, EvWait (child_pid w) st);
           (self w, EvOut (lit "~ # "))] ++ tail
  | None =>
      res (run (loop (S (S n)) command) w) = Hung ∧
      log (final (run (loop (S (S n)) command) w))
      = log w ++
        [(self w, EvOut (lit "~ # "));
         (self w, EvRead (line ++ [LF]));
         (self w, EvOut (echo line));
         (self w, EvFork (child_pid w));
         (child_pid w, EvExec line [line]);
         (child_pid w, EvOut (img_out img))]
  end.
Proof.
  intros Hlen Hl Hin Hc Hp.
  change (loop (S (S n)) command) with (bind (loop_body command) (loop (S n))).
  destruct (run_loop_body_line command (loop (S n)) w line rest)
    as (command2 & Hstr & Hl2 & ->); [done..|].
  set (w1 := emit _ _).
  assert (Hc1 : creation_succeeds w1 = true) by done.
  destruct (img_status img) as [st|] eqn:Hs.
  - rewrite (run_execute_reaped _ _ _ st); [|done|].
    2:{ unfold child_status. rewrite Hstr. simpl. by rewrite Hp. }
    edestruct (loop_opens_with_prompt n command2) as [tl ->].
    exists tl. unfold child_events. rewrite Hstr. simpl. rewrite Hp, Hs. simpl.
    by rewrite <- !app_assoc.
  - destruct (run_execute_blocked command2 (λ _, loop (S n) command2) w1) as [-> ->].
    { done. }
    { unfold child_status. rewrite Hstr. simpl. by rewrite Hp. }
    split; [done|]. unfold child_events. rewrite Hstr. simpl. rewrite Hp, Hs. simpl.
    by rewrite <- !app_assoc.
Qed.

(** C6.  When no child can be made, the pass writes the diagnostic
    [fork failed] to the error stream, makes no wait, and returns to the loop:
    the next pass starts from the rest of the input with the table of
    children and the next identifier unchanged, and the next prompt is
    written. *)
Theorem creation_failure_is_skipped (n : nat) (command : list ascii) (w : World)
    (line rest : list ascii) :
  length command = NUM → is_line line = true → stdin w = line ++ LF :: rest →
  creation_succeeds w = false →
  ∃ command2 w',
    run (loop (S n) command) w = run (loop n command2) w' ∧
    log w' = log w ++
             [(self w, EvOut (lit "~ # "));
              (self w, EvRead (line ++ [LF]));
              (self w, EvOut (echo line));
              (self w, EvFork (-1));
              (self w, EvErr (lit "fork failed") EAGAIN)] ∧
    stdin w' = rest ∧ procs w' = procs w ∧ next_pid w' = next_pid w ∧
    forks w' = tail (forks w) ∧
    ∃ tail,
      log (final (run (loop (S (S n)) command) w))
      = log w' ++ (self w, EvOut (lit "~ # ")) :: tail.
Proof.
  intros Hlen Hl Hin Hc.
  destruct (run_loop_body_line command (loop n) w line rest)
    as (command2 & Hstr & Hl2 & Hrun); [done..|].
  destruct (run_loop_body_line command (loop (S n)) w line rest)
    as (command2' & _ & _ & Hrun'); [done..|].
  eexists command2, _. split; [|split; [|split; [|split; [|split; [|split]]]]].
  - change (loop (S n) command) with (bind (loop_body command) (loop n)).
    rewrite Hrun. by apply run_execute_failed.
  - simpl. by rewrite <- !app_assoc.
  - reflexivity.
  - reflexivity.
  - reflexivity.
  - reflexivity.
  - change (loop (S (S n)) command) with (bind (loop_body command) (loop (S n))).
    rewrite Hrun', run_execute_failed by done.
    edestruct (loop_opens_with_prompt n command2') as [tl ->].
    exists tl. simpl. by rewrite <- !app_assoc.
Qed.

End ShellLoop.

(** ** The command array across passes *)

Module Buffer.
Import CStr Sys Shell Kernel Session CStrFacts RunFacts LineFacts.

(** What the array held before a pass leaves no trace in the session. *)
Lemma loop_ignores_old_contents (n : nat) :
  ∀ (old1 old2 : list ascii) (w : World),
    length old1 = NUM → length old2 = NUM →
    log (final (run (loop n old1) w)) = log (final (run (loop n old2) w)) ∧
    outcome (run (loop n old1) w) = outcome (run (loop n old2) w).
Proof.
  induction n as [|n IH]; intros old1 old2 w H1 H2; [done|].
  change (loop (S n) old1) with (bind (loop_body old1) (loop n)).
  change (loop (S n) old2) with (bind (loop_body old2) (loop n)).
  destruct (stdin w) as [|c t] eqn:Hin.
  - by rewrite !run_loop_body_eof.
  - destruct (Ascii.eqb_spec c NUL) as [->|Hc].
    + by rewrite !(run_loop_body_NUL_final _ _ _ t).
    + destruct (run_loop_body_read old1 (loop n) w c t) as (c1 & Hs1 & Hl1 & -> & _); [done..|].
      destruct (run_loop_body_read old2 (loop n) w c t) as (c2 & Hs2 & Hl2 & -> & _); [done..|].
      set (w1 := at_dispatch w).
      destruct (creation_succeeds w1) eqn:Hf.
      * destruct (child_status w1 (command_of (consumed NUM (stdin w)))) as [st|] eqn:Hst.
        -- rewrite !(run_execute_reaped _ _ _ st), Hs1, Hs2 by (done || congruence).
           by apply IH.
        -- destruct (run_execute_blocked c1 (λ _, loop n c1) w1) as [Hr1 Hg1];
             [done | congruence |].
           destruct (run_execute_blocked c2 (λ _, loop n c2) w1) as [Hr2 Hg2];
             [done | congruence |].
           unfold outcome. rewrite Hr1, Hr2, Hg1, Hg2, Hs1, Hs2. done.
      * rewrite !run_execute_failed by done. by apply IH.
Qed.

(** C8.  Whatever the array held before a pass, the session is the same:
    every echo and every call made in any number of passes is independent of
    the old contents.  The command of a pass is an initial part of the
    characters read in that pass (all but the last of them, up to the first
    ['\000'] if there is one). *)
Theorem stale_bytes_never_read (n : nat) (old1 old2 : list ascii) (w : World)
    (c : ascii) (t : list ascii) :
  length old1 = NUM → length old2 = NUM → stdin w = c :: t → c ≠ NUL →
  (∀ (m : nat) (w' : World),
     log (final (run (loop m old1) w')) = log (final (run (loop m old2) w')) ∧
     outcome (run (loop m old1) w') = outcome (run (loop m old2) w')) ∧
  ∃ command2,
    c_str command2
    = take (strlen (consumed NUM (stdin w)) - 1) (consumed NUM (stdin w)) ∧
    run (loop (S n) old1) w
    = run (bind (execute command2) (λ _, loop n command2))
        (emit (EvOut (lit (String LF " Running command: ") ++ c_str command2 ++ [LF]))
           (emit (EvRead (consumed NUM (stdin w)))
              (set_stdin (drop (length (consumed NUM (stdin w))) (stdin w))
                 (emit (EvOut (lit "~ # ")) w)))).
Proof.
  intros H1 H2 Hin Hc. split.
  - intros m w'. by apply loop_ignores_old_contents.
  - destruct (run_loop_body_read old1 (loop n) w c t) as (c1 & Hs1 & Hl1 & Hrun & _); [done..|].
    exists c1. split; [done|].
    change (loop (S n) old1) with (bind (loop_body old1) (loop n)).
    rewrite Hrun. unfold at_dispatch, echo. by rewrite Hs1.
Qed.

End Buffer.

(** ** The properties at the sample session *)

Module Sample.
Import CStr Sys Shell Kernel Session.

(** The first command of the sample session: the child runs [/bin/true] and
    ends with 0, and the parent's wait returns for child 2 with 0. *)
Lemma parent_waits_for_created_child_sample :
  creation_succeeds Demo.two_commands = true ∧
  (∃ k, bind (execute Demo.command_true) Ret = Fork k ∧
        ∀ pid : positive, k (Z.pos pid) = Wait (Z.pos pid) (λ _, Ret 0)) ∧
  match child_status Demo.two_commands (c_str Demo.command_true) with
  | Some st =>
      ∃ w', run (bind (execute Demo.command_true) Ret) Demo.two_commands
            = run (Ret 0) w' ∧
            log w' = log Demo.two_commands ++
                     (self Demo.two_commands, EvFork (child_pid Demo.two_commands)) ::
                       child_events Demo.two_commands (c_str Demo.command_true) ++
                       [(self Demo.two_commands, EvWait (child_pid Demo.two_commands) st)] ∧
            last (child_events Demo.two_commands (c_str Demo.command_true))
            = Some (child_pid Demo.two_commands, EvExit st) ∧
            procs w' = <[child_pid Demo.two_commands := Reaped st]> (procs Demo.two_commands)
  | None =>
      res (run (bind (execute Demo.command_true) Ret) Demo.two_commands) = Hung ∧
      List.filter is_wait
        (log (final (run (bind (execute Demo.command_true) Ret) Demo.two_commands)))
      = List.filter is_wait (log Demo.two_commands)
  end.
Proof.
  split; [reflexivity|].
  apply (Supervisor.parent_waits_for_created_child Demo.command_true Ret Demo.two_commands).
  reflexivity.
Defined.

(** [ls -l] names no program: the child reports and ends with 1. *)
Lemma failed_exec_ends_child_sample :
  creation_succeeds Demo.two_words = true ∧
  programs Demo.two_words (c_str Demo.command_ls) = None ∧
  (∃ k, bind (execute Demo.command_ls) Ret = Fork k ∧
        ∀ input,
          res (run (k 0) (child_world (next_pid Demo.two_words) input Demo.two_words))
          = Exited 1 ∧
          log (final (run (k 0) (child_world (next_pid Demo.two_words) input Demo.two_words)))
          = [(child_pid Demo.two_words, EvExec (c_str Demo.command_ls) [c_str Demo.command_ls]);
             (child_pid Demo.two_words, EvErr (lit "exec failed") ENOENT);
             (child_pid Demo.two_words, EvExit 1)]) ∧
  (∃ w', run (bind (execute Demo.command_ls) Ret) Demo.two_words = run (Ret 0) w' ∧
         log w' = log Demo.two_words ++
                  [(self Demo.two_words, EvFork (child_pid Demo.two_words));
                   (child_pid Demo.two_words, EvExec (c_str Demo.command_ls) [c_str Demo.command_ls]);
                   (child_pid Demo.two_words, EvErr (lit "exec failed") ENOENT);
                   (child_pid Demo.two_words, EvExit 1);
                   (self Demo.two_words, EvWait (child_pid Demo.two_words) 1)]).
Proof.
  split; [reflexivity|]. split; [reflexivity|].
  apply (Supervisor.failed_exec_ends_child Demo.command_ls Ret Demo.two_words);
    reflexivity.
Defined.

(** The first command of the sample session, up to the second prompt. *)
Lemma next_prompt_after_child_ends_sample :
  length Demo.stale = NUM ∧
  is_line (lit "/bin/true") = true ∧
  stdin Demo.two_commands = lit "/bin/true" ++ LF :: lit ("/bin/false" ++ Demo.nl) ∧
  creation_succeeds Demo.two_commands = true ∧
  programs Demo.two_commands (lit "/bin/true")
  = Some {| img_reads := 0; img_out := lit "ok"; img_status := Some 0 |} ∧
  ∃ tail,
    log (final (run (loop 2 Demo.stale) Demo.two_commands))
    = log Demo.two_commands ++
      [(self Demo.two_commands, EvOut (lit "~ # "));
       (self Demo.two_commands, EvRead (lit "/bin/true" ++ [LF]));
       (self Demo.two_commands, EvOut (echo (lit "/bin/true")));
       (self Demo.two_commands, EvFork (child_pid Demo.two_commands));
       (child_pid Demo.two_commands, EvExec (lit "/bin/true") [lit "/bin/true"]);
       (child_pid Demo.two_commands, EvOut (lit "ok"));
       (child_pid Demo.two_commands, EvExit 0);
       (self Demo.two_commands, EvWait (child_pid Demo.two_commands) 0);
       (self Demo.two_commands, EvOut (lit "~ # "))] ++ tail.
Proof.
  split; [reflexivity|]. split; [reflexivity|]. split; [reflexivity|].
  split; [reflexivity|]. split; [reflexivity|].
  apply (ShellLoop.next_prompt_after_child_ends 0 Demo.stale Demo.two_commands
           (lit "/bin/true") (lit ("/bin/false" ++ Demo.nl))
           {| img_reads := 0; img_out := lit "ok"; img_status := Some 0 |});
    reflexivity.
Defined.

(** A session whose first creation fails: the second prompt still comes. *)
Lemma creation_failure_is_skipped_sample :
  length Demo.stale = NUM ∧
  is_line (lit "ls -l") = true ∧
  stdin Demo.no_child = lit "ls -l" ++ LF :: lit ("/bin/true" ++ Demo.nl) ∧
  creation_succeeds Demo.no_child = false ∧
  ∃ command2 w',
    run (loop 1 Demo.stale) Demo.no_child = run (loop 0 command2) w' ∧
    log w' = log Demo.no_child ++
             [(self Demo.no_child, EvOut (lit "~ # "));
              (self Demo.no_child, EvRead (lit "ls -l" ++ [LF]));
              (self Demo.no_child, EvOut (echo (lit "ls -l")));
              (self Demo.no_child, EvFork (-1));
              (self Demo.no_child, EvErr (lit "fork failed") EAGAIN)] ∧
    stdin w' = lit ("/bin/true" ++ Demo.nl) ∧
    procs w' = procs Demo.no_child ∧
    next_pid w' = next_pid Demo.no_child ∧
    forks w' = tail (forks Demo.no_child) ∧
    ∃ tail,
      log (final (run (loop 2 Demo.stale) Demo.no_child))
      = log w' ++ (self Demo.no_child, EvOut (lit "~ # ")) :: tail.
Proof.
  split; [reflexivity|]. split; [reflexivity|]. split; [reflexivity|].
  split; [reflexivity|].
  apply (ShellLoop.creation_failure_is_skipped 0 Demo.stale Demo.no_child
           (lit "ls -l") (lit ("/bin/true" ++ Demo.nl)));
    reflexivity.
Defined.

(** Two arrays with different old contents give the same session. *)
Lemma stale_bytes_never_read_sample :
  length Demo.stale = NUM ∧
  length Demo.command_true = NUM ∧
  stdin Demo.two_commands = "/"%char :: lit ("bin/true" ++ Demo.nl ++ "/bin/false" ++ Demo.nl) ∧
  "/"%char ≠ NUL ∧
  (∀ (m : nat) (w' : World),
     log (final (run (loop m Demo.stale) w'))
     = log (final (run (loop m Demo.command_true) w')) ∧
     outcome (run (loop m Demo.stale) w') = outcome (run (loop m Demo.command_true) w')) ∧
  ∃ command2,
    c_str command2
    = take (strlen (consumed NUM (stdin Demo.two_commands)) - 1)
        (consumed NUM (stdin Demo.two_commands)) ∧
    run (loop 1 Demo.stale) Demo.two_commands
    = run (bind (execute command2) (λ _, loop 0 command2))
        (emit (EvOut (lit (String LF " Running command: ") ++ c_str command2 ++ [LF]))
           (emit (EvRead (consumed NUM (stdin Demo.two_commands)))
              (set_stdin
                 (drop (length (consumed NUM (stdin Demo.two_commands)))
                    (stdin Demo.two_commands))
                 (emit (EvOut (lit "~ # ")) Demo.two_commands)))).
Proof.
  split; [reflexivity|]. split; [reflexivity|]. split; [reflexivity|].
  split; [discriminate|].
  apply (Buffer.stale_bytes_never_read 0 Demo.stale Demo.command_true Demo.two_commands
           "/"%char (lit ("bin/true" ++ Demo.nl ++ "/bin/false" ++ Demo.nl)));
    [reflexivity | reflexivity | reflexivity | discriminate].
Defined.

(** The sample session as a whole: two prompts, two children one after the
    other, and on the third pass the read at the end of the stream. *)
Example two_commands_session :
  res (run (main 3 Demo.stale) Demo.two_commands) = Crashed ∧
  log (final (run (main 3 Demo.stale) Demo.two_commands))
  = [(1, EvUnbuffered);
     (1, EvOut (lit ("Running Shell..." ++ Demo.nl)));
     (1, EvOut (lit "~ # "));
     (1, EvRead (lit ("/bin/true" ++ Demo.nl)));
     (1, EvOut (echo (lit "/bin/true")));
     (1, EvFork 2);
     (2, EvExec (lit "/bin/true") [lit "/bin/true"]);
     (2, EvOut (lit "ok"));
     (2, EvExit 0);
     (1, EvWait 2 0);
     (1, EvOut (lit "~ # "));
     (1, EvRead (lit ("/bin/false" ++ Demo.nl)));
     (1, EvOut (echo (lit "/bin/false")));
     (1, EvFork 3);
     (3, EvExec (lit "/bin/false") [lit "/bin/false"]);
     (3, EvOut []);
     (3, EvExit 1);
     (1, EvWait 3 1);
     (1, EvOut (lit "~ # "));
     (1, EvEof)].
Proof. vm_compute. split; reflexivity. Qed.

(** A last line that ends with the stream and not with a newline loses its
    last character as well. *)
Example unterminated_last_line :
  log (final (run (loop 1 Demo.stale) (boot (lit "ab") [false] Demo.progs)))
  = [(1, EvOut (lit "~ # "));
     (1, EvRead (lit "ab"));
     (1, EvOut (echo (lit "a")));
     (1, EvFork (-1));
     (1, EvErr (lit "fork failed") EAGAIN)].
Proof. vm_compute. reflexivity. Qed.

(** The sample session with other exit statuses on the disk. *)
Lemma execute_returns_zero_sample :
  length Demo.stale = NUM ∧
  same_but_status Demo.two_commands Demo.two_commands' ∧
  res (run (loop 3 Demo.stale) Demo.two_commands)
  = res (run (loop 3 Demo.stale) Demo.two_commands') ∧
  map forget_status (log (final (run (loop 3 Demo.stale) Demo.two_commands)))
  = map forget_status (log (final (run (loop 3 Demo.stale) Demo.two_commands'))).
Proof.
  assert (Hw : same_but_status Demo.two_commands Demo.two_commands').
  { repeat split; try reflexivity; intros path; simpl; unfold Demo.progs, Demo.progs';
      repeat case_decide; simpl; done. }
  split; [reflexivity|]. split; [exact Hw|].
  apply (Supervisor.execute_returns_zero Demo.command_true Ret Demo.two_commands);
    [reflexivity | exact Hw].
Defined.

End Sample.

(** ** Further facts about the line reader *)

Module ReaderFacts.
Import CStr Sys Shell Kernel Session Observe CStrFacts RunFacts LineFacts.

Lemma c_str_has_no_NUL (a : list ascii) : NUL ∉ c_str a.
Proof.
  induction a as [|c a IH]; simpl; [apply not_elem_of_nil|].
  destruct (Ascii.eqb_spec c NUL) as [->|Hc]; [apply not_elem_of_nil|].
  apply not_elem_of_cons. split; [congruence | done].
Qed.

(** A newline can only be the last of the characters read. *)
Lemma read_line_LF_last (n : nat) (input : list ascii) :
  LF ∉ take (length (read_line n input).1 - 1) (read_line n input).1.
Proof.
  revert input. induction n as [|n IH]; intros [|c t]; simpl;
    try apply not_elem_of_nil.
  destruct (Ascii.eqb_spec c LF) as [->|Hc]; simpl; [apply not_elem_of_nil|].
  specialize (IH t). destruct (read_line n t) as [l r]. simpl in *.
  destruct l as [|d l]; simpl in *; [apply not_elem_of_nil|].
  rewrite Nat.sub_0_r in *. apply not_elem_of_cons. split; [congruence | done].
Qed.

(** Input without a newline among its first [n] characters: these are
    taken, the rest stays. *)
Lemma read_line_full (n : nat) (input : list ascii) :
  LF ∉ take n input →
  read_line n input = (take n input, drop n input).
Proof.
  revert input. induction n as [|n IH]; intros [|c t] Hlf; simpl in *; try reflexivity.
  apply not_elem_of_cons in Hlf as [Hc Hl].
  destruct (Ascii.eqb_spec c LF) as [->|_]; [done|].
  by rewrite IH.
Qed.

Lemma not_elem_of_take {X : Type} (x : X) (k m : nat) (l : list X) :
  (k <= m)%nat → x ∉ take m l → x ∉ take k l.
Proof.
  intros Hkm Hx Hin. apply Hx.
  apply elem_of_take in Hin as (i & Hi & Hlt).
  apply elem_of_take. exists i. split; [done | lia].
Qed.

Lemma command_of_no_LF (size : nat) (input : list ascii) :
  LF ∉ command_of (consumed size input).
Proof.
  unfold command_of, consumed.
  pose proof (c_str_length (read_line (size - 1) input).1) as Hle.
  apply (not_elem_of_take _ _ (length (read_line (size - 1) input).1 - 1));
    [unfold strlen; lia | apply read_line_LF_last].
Qed.

Lemma next_array_terminated (command chunk : list ascii) :
  (0 < strlen chunk)%nat → (length chunk < length command)%nat →
  terminated (next_array command chunk) ∧
  strlen (next_array command chunk) = (strlen chunk - 1)%nat.
Proof.
  intros Hpos Hlen. unfold terminated, next_array.
  pose proof (c_str_length chunk) as Hle. fold (strlen chunk) in Hle.
  assert (Hs : strlen (<[(strlen chunk - 1)%nat:=NUL]> (store chunk command))
               = (strlen chunk - 1)%nat).
  { unfold strlen at 1. rewrite c_str_insert_NUL by (rewrite strlen_store; lia).
    rewrite length_take. unfold store. rewrite c_str_app_NUL.
    fold (strlen chunk). lia. }
  split; [|done]. rewrite Hs. apply list_lookup_insert_eq.
  rewrite store_length by done. lia.
Qed.

End ReaderFacts.

(** ** What a pass comes to *)

Module PassFacts.
Import CStr Sys Shell Kernel Session Observe CStrFacts RunFacts LineFacts.

Lemma child_events_counts (w : World) (path : list ascii) :
  List.filter is_fork (child_events w path) = [] ∧
  List.filter is_read (child_events w path) = [].
Proof.
  unfold child_events. destruct (programs w path) as [img|]; [|done].
  destruct (img_status img); done.
Qed.

Lemma child_input_length (w : World) (path : list ascii) :
  (length (child_input w path) <= length (stdin w))%nat.
Proof.
  unfold child_input. destruct (programs w path) as [img|]; [|done].
  rewrite length_drop. lia.
Qed.

(** What one pass comes to, whatever follows it: undefined behaviour, a
    wait that never returns, or the rest of the program from a world in
    which less input is left. *)
Lemma pass_cases {A : Type} (command : list ascii) (f : list ascii → Prog A)
    (w : World) :
  length command = NUM →
  res (run (bind (loop_body command) f) w) = Crashed ∨
  (res (run (bind (loop_body command) f) w) = Hung ∧
   ∃ path img, programs w path = Some img ∧ img_status img = None) ∨
  ∃ c2 w',
    run (bind (loop_body command) f) w = run (f c2) w' ∧
    length c2 = NUM ∧ programs w' = programs w ∧ self w' = self w ∧
    (length (stdin w') < length (stdin w))%nat ∧
    (procs w' = procs w ∨ ∃ st, procs w' = <[child_pid w := Reaped st]> (procs w)) ∧
    ∃ evs, log w' = log w ++ evs ∧
           length (List.filter is_fork evs) = 1%nat ∧
           length (List.filter is_read evs) = 1%nat.
Proof.
  intros Hlen. destruct (stdin w) as [|c t] eqn:Hin.
  { left. by rewrite run_loop_body_eof. }
  destruct (Ascii.eqb_spec c NUL) as [->|Hc].
  { left. by rewrite (run_loop_body_NUL_final _ _ _ t). }
  destruct (run_loop_body_read command f w c t) as (c2 & Hstr & Hl2 & -> & _); [done..|].
  destruct (read_line_head (NUM - 2) c t) as [l Hl].
  change (S (NUM - 2)) with (NUM - 1)%nat in Hl.
  assert (Hless : (length (stdin (at_dispatch w)) < length (stdin w))%nat).
  { unfold at_dispatch, consumed. rewrite Hin, Hl. simpl. rewrite length_drop.
    lia. }
  rewrite Hin in Hless. set (d := at_dispatch w) in *.
  destruct (creation_succeeds d) eqn:Hf.
  - destruct (child_status d (c_str c2)) as [st|] eqn:Hst.
    + right. right. exists c2, (reaped d (c_str c2) st).
      rewrite (run_execute_reaped _ _ _ st) by done.
      split; [done|]. split; [done|]. split; [done|]. split; [done|]. split.
      { pose proof (child_input_length d (c_str c2)). unfold reaped. cbn [stdin]. lia. }
      split; [right; by exists st|].
      destruct (child_events_counts d (c_str c2)) as [Hk Hr].
      exists ([(self w, EvOut prompt);
               (self w, EvRead (consumed NUM (c :: t)));
               (self w, EvOut (echo (command_of (consumed NUM (c :: t)))));
               (self w, EvFork (child_pid w))]
              ++ child_events d (c_str c2) ++ [(self w, EvWait (child_pid w) st)]).
      split.
      { unfold reaped, d, at_dispatch, emit. cbn [log self set_stdin].
        rewrite Hin, <- !app_assoc. reflexivity. }
      rewrite !List.filter_app, Hk, Hr. done.
    + right. left.
      destruct (run_execute_blocked c2 (λ _, f c2) d Hf Hst) as [-> _].
      split; [done|]. unfold child_status in Hst.
      change (programs d) with (programs w) in Hst.
      destruct (programs w (c_str c2)) as [img|] eqn:Hp; [|done]. eauto.
  - right. right. exists c2, (creation_failed d).
    rewrite run_execute_failed by done.
    split; [done|]. split; [done|]. split; [done|]. split; [done|].
    split; [done|]. split; [by left|].
    eexists. split.
    { unfold creation_failed, d, at_dispatch. simpl. rewrite <- !app_assoc. simpl.
      reflexivity. }
    done.
Qed.

Lemma all_reaped_insert (table : gmap Z Child) (pid st : Z) :
  all_reaped table → all_reaped (<[pid := Reaped st]> table).
Proof.
  intros H q c. rewrite lookup_insert. case_decide.
  - intros [= <-]. eauto.
  - apply H.
Qed.

End PassFacts.

(** ** Facts about what the shell itself writes and reads *)

Module TranscriptFacts.
Import CStr Sys Shell Kernel Session Transcript CStrFacts RunFacts.











End TranscriptFacts.

(** ** Facts about arrays filled by [read] *)

Module PosixFacts.
Import CStr Posix CStrFacts.

(** Bytes copied to the start of an array and a terminator put behind
    them: the array holds them as a string. *)
Lemma terminate_after_read (chunk buf : list ascii) :
  (length chunk < length buf)%nat →
  <[length chunk := NUL]> (chunk ++ drop (length chunk) buf) = store chunk buf.
Proof.
  intros Hlen. unfold store. rewrite insert_app_r_alt, Nat.sub_diag by lia.
  destruct (drop (length chunk) buf) as [|b bs] eqn:Hdrop.
  - apply (f_equal length) in Hdrop. rewrite length_drop in Hdrop. simpl in Hdrop. lia.
  - simpl. do 2 f_equal.
    replace (S (length chunk)) with (length chunk + 1)%nat by lia.
    by rewrite <- drop_drop, Hdrop.
Qed.

End PosixFacts.

(** ** Facts about the counters *)

Module ReportFacts.
Import CStr Report.

(** One call of [print_result] on consistent counters with room left. *)
Lemma print_result_step (test_name : list ascii) (result : Z) (t : Tests) :
  consistent t → total_tests t < INT_MAX →
  ∃ t', print_result test_name result t = Some t' ∧
        consistent t' ∧
        total_tests t' = total_tests t + 1 ∧
        passed_tests t' = passed_tests t + (if result =? TEST_PASSED then 1 else 0) ∧
        failed_tests t' = failed_tests t + (if result =? TEST_PASSED then 0 else 1).
Proof.
  intros (Hsum & Hp & Hf) Hroom. unfold print_result, incr.
  destruct (Z.ltb_spec (total_tests t) INT_MAX) as [_|?]; [|lia].
  destruct (result =? TEST_PASSED).
  - destruct (Z.ltb_spec (passed_tests t) INT_MAX) as [_|?]; [|lia].
    eexists. split; [reflexivity|]. unfold consistent. simpl. lia.
  - destruct (Z.ltb_spec (failed_tests t) INT_MAX) as [_|?]; [|lia].
    eexists. split; [reflexivity|]. unfold consistent. simpl. lia.
Qed.

End ReportFacts.

(** ** More on the line reader of the shell *)

Module Reader.
Import CStr Sys Shell Kernel Session Observe CStrFacts RunFacts LineFacts ReaderFacts.

(** X2.  Whatever the input, when a pass gets as far as its command, the
    array it hands on still has [NUM] characters and holds a string that ends
    inside the array, has no newline and no ['\000'] in it, and is at most
    [NUM - 2] characters long. *)
Theorem command_is_a_terminated_line {A : Type} (command : list ascii)
    (f : list ascii → Prog A) (w : World) (c : ascii) (t : list ascii) :
  stdin w = c :: t → c ≠ NUL → length command = NUM →
  ∃ command2,
    run (bind (loop_body command) f) w
    = run (bind (execute command2) (λ _, f command2)) (at_dispatch w) ∧
    length command2 = NUM ∧ terminated command2 ∧
    (LF ∉ c_str command2) ∧ (NUL ∉ c_str command2) ∧
    (strlen command2 <= NUM - 2)%nat.
Proof.
  intros Hin Hc Hlen.
  destruct (run_loop_body_read command f w c t) as (c2 & Hstr & Hl2 & Hrun & Heq);
    [done..|].
  exists c2. split; [done|]. split; [done|].
  destruct (read_line_head (NUM - 2) c t) as [l Hl].
  change (S (NUM - 2)) with (NUM - 1)%nat in Hl.
  pose proof (read_line_length (NUM - 1) (c :: t)) as Hn.
  assert (Hchunk : consumed NUM (stdin w) = c :: l) by (by rewrite Hin).
  destruct (next_array_terminated command (c :: l)) as [Ht Hs].
  { by apply strlen_cons_pos. }
  { rewrite <- Hl, Hlen. unfold NUM in *. lia. }
  rewrite Hchunk in Heq. subst c2.
  split; [done|]. split; [|split].
  - rewrite Hstr. apply command_of_no_LF.
  - apply c_str_has_no_NUL.
  - rewrite Hs. pose proof (c_str_length (c :: l)) as Hle. fold (strlen (c :: l)) in Hle.
    rewrite <- Hl in Hle at 2. unfold NUM in *. lia.
Qed.

(** X3.  A line longer than the array takes is split: the pass reads the
    first [NUM - 1] characters, makes a command of the first [NUM - 2], and
    leaves everything from character [NUM - 1] on in the stream, where the
    next pass reads it as another command. *)
Theorem overlong_line_is_split (n : nat) (command : list ascii) (w : World) :
  length command = NUM → (NUM - 1 <= length (stdin w))%nat →
  LF ∉ take (NUM - 1) (stdin w) → NUL ∉ take (NUM - 1) (stdin w) →
  ∃ command2,
    c_str command2 = take (NUM - 2) (stdin w) ∧
    run (loop (S n) command) w
    = run (bind (execute command2) (λ _, loop n command2))
        (emit (EvOut (lit (String LF " Running command: ")
                        ++ take (NUM - 2) (stdin w) ++ [LF]))
           (emit (EvRead (take (NUM - 1) (stdin w)))
              (set_stdin (drop (NUM - 1) (stdin w))
                 (emit (EvOut (lit "~ # ")) w)))).
Proof.
  intros Hlen Hlong Hlf Hnul.
  destruct (stdin w) as [|c t] eqn:Hin.
  { exfalso. clear -Hlong. unfold NUM in Hlong. simpl in Hlong. lia. }
  assert (Hc : c ≠ NUL).
  { intros ->. apply Hnul. change (NUM - 1)%nat with (S (NUM - 2)). simpl. left. }
  destruct (run_loop_body_read command (loop n) w c t) as (c2 & Hstr & Hl2 & Hrun & _);
    [done..|].
  assert (Hchunk : consumed NUM (stdin w) = take (NUM - 1) (c :: t)).
  { unfold consumed. rewrite Hin, read_line_full by done. reflexivity. }
  assert (Hcmd : command_of (take (NUM - 1) (c :: t)) = take (NUM - 2) (c :: t)).
  { unfold command_of, strlen. rewrite c_str_no_NUL by done.
    rewrite length_take, take_take. f_equal. unfold NUM in *. lia. }
  exists c2. rewrite Hchunk, Hcmd in Hstr. split; [done|].
  change (loop (S n) command) with (bind (loop_body command) (loop n)).
  rewrite Hrun. unfold at_dispatch, echo. rewrite Hchunk, Hcmd, Hin.
  rewrite length_take, Nat.min_l by done.
  reflexivity.
Qed.


(** X1.  A line typed without terminators inside, however it reads and
    even when it is empty, reaches the image replacement unchanged: the pass
    reads the line with its newline, echoes the line, creates the child, and
    the child's call has the line as path and as single argument. *)
Theorem typed_line_reaches_exec_unchanged (n : nat) (command : list ascii)
    (w : World) (line rest : list ascii) :
  length command = NUM → is_line line = true → stdin w = line ++ LF :: rest →
  creation_succeeds w = true →
  ∃ tail,
    log (final (run (loop (S n) command) w))
    = log w ++
      [(self w, EvOut (lit "~ # "));
       (self w, EvRead (line ++ [LF]));
       (self w, EvOut (lit (String LF " Running command: ") ++ line ++ [LF]));
       (self w, EvFork (child_pid w));
       (child_pid w, EvExec line [line])] ++ tail.
Proof.
  intros Hlen Hl Hin Hc.
  change (loop (S n) command) with (bind (loop_body command) (loop n)).
  destruct (run_loop_body_line command (loop n) w line rest)
    as (c2 & Hstr & Hl2 & ->); [done..|].
  set (w1 := emit _ _).
  assert (Hc1 : creation_succeeds w1 = true) by done.
  destruct (child_status w1 (c_str c2)) as [st|] eqn:Hst.
  - rewrite (run_execute_reaped _ _ _ st) by done.
    edestruct (@run_log_grows (list ascii)) as [tl ->].
    rewrite Hstr. unfold reaped, child_events. cbn [log].
    eexists. unfold w1. simpl. rewrite <- !app_assoc. simpl. reflexivity.
  - destruct (run_execute_blocked c2 (λ _, loop n c2) w1 Hc1 Hst) as [_ ->].
    rewrite Hstr. unfold child_events.
    eexists. unfold w1. simpl. rewrite <- !app_assoc. simpl. reflexivity.
Qed.

End Reader.

(** ** Whole sessions of the shell *)

Module Sessions.
Import CStr Sys Shell Kernel Session Observe CStrFacts RunFacts LineFacts PassFacts.

(** X5.  The loop does not outlive its input: with more passes than there
    are characters of input, the shell has ended in undefined behaviour, or
    it is blocked on a child whose program never ends. *)
Theorem loop_does_not_outlive_its_input (n : nat) :
  ∀ (command : list ascii) (w : World),
    length command = NUM → (length (stdin w) < n)%nat →
    res (run (loop n command) w) = Crashed ∨
    (res (run (loop n command) w) = Hung ∧ ¬ all_end (programs w)).
Proof.
  induction n as [|n IH]; intros command w Hlen Hn; [lia|].
  change (loop (S n) command) with (bind (loop_body command) (loop n)).
  destruct (pass_cases command (loop n) w Hlen)
    as [Hc | [(Hh & path & img & Hp & Hs) | (c2 & w' & -> & Hl2 & Hpr & _ & Hlt & _)]].
  - by left.
  - right. split; [done|]. intros Hall. by apply (Hall path img).
  - rewrite <- Hpr. apply IH; [done | lia].
Qed.

(** X6.  The shell process itself never terminates through [exit]: the
    [exit(1)] after a failed image replacement is only ever reached by a
    child. *)
Theorem shell_never_exits (n : nat) (command : list ascii) (w : World) (st : Z) :
  length command = NUM →
  res (run (main n command) w) ≠ Exited st.
Proof.
  intros Hlen.
  change (run (main n command) w)
    with (run (loop n command)
            (emit (EvOut (lit ("Running Shell..." ++ String LF ""))) (emit EvUnbuffered w))).
  generalize (emit (EvOut (lit ("Running Shell..." ++ String LF ""))) (emit EvUnbuffered w)).
  revert command Hlen. induction n as [|n IH]; intros command Hlen w0; [done|].
  change (loop (S n) command) with (bind (loop_body command) (loop n)).
  destruct (pass_cases command (loop n) w0 Hlen)
    as [-> | [(-> & _) | (c2 & w' & -> & Hl2 & _)]]; [done | done |].
  by apply IH.
Qed.

(** X7.  Every child the loop creates is waited for before the next pass:
    from a table without children to be waited for, the table of a shell that
    is still running has none either. *)
Theorem every_child_is_reaped (n : nat) :
  ∀ (command : list ascii) (w : World),
    length command = NUM → all_reaped (procs w) →
    (∃ c', res (run (loop n command) w) = Done c') →
    all_reaped (procs (final (run (loop n command) w))).
Proof.
  induction n as [|n IH]; intros command w Hlen Hall Hdone; [done|].
  revert Hdone.
  change (loop (S n) command) with (bind (loop_body command) (loop n)).
  destruct (pass_cases command (loop n) w Hlen)
    as [-> | [(-> & _) | (c2 & w' & -> & Hl2 & _ & _ & _ & Hpr & _)]].
  - by intros [? ?].
  - by intros [? ?].
  - intros Hdone. apply IH; [done | | done].
    destruct Hpr as [-> | [st ->]]; [done | by apply all_reaped_insert].
Qed.

(** X8.  Each pass reads once and calls [fork] once, and children never
    call it: a shell that has finished [n] passes has added exactly [n] reads
    and [n] returns of [fork] to the record. *)
Theorem one_creation_per_pass (n : nat) :
  ∀ (command : list ascii) (w : World),
    length command = NUM →
    (∃ c', res (run (loop n command) w) = Done c') →
    ∃ evs,
      log (final (run (loop n command) w)) = log w ++ evs ∧
      length (List.filter is_fork evs) = n ∧
      length (List.filter is_read evs) = n.
Proof.
  induction n as [|n IH]; intros command w Hlen Hdone.
  { exists []. simpl. by rewrite app_nil_r. }
  revert Hdone.
  change (loop (S n) command) with (bind (loop_body command) (loop n)).
  destruct (pass_cases command (loop n) w Hlen)
    as [-> | [(-> & _) | (c2 & w' & -> & Hl2 & _ & _ & _ & _ & evs & Hlog & Hk & Hr)]].
  - by intros [? ?].
  - by intros [? ?].
  - intros Hdone. destruct (IH c2 w' Hl2 Hdone) as (evs' & -> & Hk' & Hr').
    exists (evs ++ evs'). rewrite Hlog, <- app_assoc. split; [done|].
    rewrite !List.filter_app, !length_app. lia.
Qed.

End Sessions.

(** ** What the user sees of a session *)

Module Dialogue.
Import CStr Sys Shell Kernel Session Transcript TranscriptFacts.


(** The sample session run for three passes, as the user sees it: the
    banner, two commands prompted for, read and echoed, and the prompt of the
    pass that finds the stream at its end. *)
Example sample_dialogue :
  shell_io 1 (log (final (run (main 3 Demo.stale) Demo.two_commands)))
  = [EvOut (lit ("Running Shell..." ++ String LF ""));
     EvOut (lit "~ # "); EvRead (lit ("/bin/true" ++ String LF ""));
     EvOut (lit (String LF " Running command: /bin/true" ++ String LF ""));
     EvOut (lit "~ # "); EvRead (lit ("/bin/false" ++ String LF ""));
     EvOut (lit (String LF " Running command: /bin/false" ++ String LF ""));
     EvOut (lit "~ # ")].
Proof. vm_compute. reflexivity. Qed.

End Dialogue.

(** ** The diagnostics of [execute] *)

Module Diagnostics.
Import CStr Sys Shell Kernel Session Observe CStrFacts RunFacts LineFacts.

(** X9.  [execute] writes to the error stream exactly in its two failure
    cases, one line each: [fork failed] by the caller when no child could be
    made, [exec failed] by the child when the image replacement came back;
    nothing when the program was started. *)
Theorem execute_diagnostics (command : list ascii) (w : World) :
  ∃ evs,
    log (final (run (execute command) w)) = log w ++ evs ∧
    List.filter is_err evs
    = if creation_succeeds w
      then match programs w (c_str command) with
           | Some _ => []
           | None => [(child_pid w, EvErr (lit "exec failed") ENOENT)]
           end
      else [(self w, EvErr (lit "fork failed") EAGAIN)].
Proof.
  rewrite Supervisor.run_execute_alone.
  destruct (creation_succeeds w) eqn:Hc.
  - destruct (child_status w (c_str command)) as [st|] eqn:Hs.
    + rewrite (run_execute_reaped _ _ _ st) by done. eexists. split; [reflexivity|].
      unfold child_events. destruct (programs w (c_str command)) as [img|]; [|reflexivity].
      destruct (img_status img); reflexivity.
    + destruct (run_execute_blocked command Ret w Hc Hs) as [_ ->].
      eexists. split; [reflexivity|].
      unfold child_status, child_events in *.
      destruct (programs w (c_str command)) as [img|]; [|done].
      destruct (img_status img); reflexivity.
  - rewrite run_execute_failed by done. eexists. split.
    + simpl. rewrite <- app_assoc. reflexivity.
    + reflexivity.
Qed.

End Diagnostics.

(** ** The program that prints a file *)

Module FileReader.
Import CStr Posix CStrFacts PosixFacts.

(** X10.  When [hello.txt] cannot be opened the program writes the
    diagnostic to standard error, nothing to standard output, opens no
    descriptor and ends with status 1. *)
Theorem missing_file_is_reported (buffer : list ascii) (fs : Files) :
  disk fs (lit "hello.txt") = None →
  (ReadExt2File.main buffer fs).1 = Exits 1 ∧
  stdout (ReadExt2File.main buffer fs).2 = stdout fs ∧
  stderr (ReadExt2File.main buffer fs).2
  = stderr fs ++ [(lit "Failed to open hello in child", NoSuchFile)] ∧
  fds (ReadExt2File.main buffer fs).2 = fds fs.
Proof.
  intros Hd. unfold ReadExt2File.main, bind, open. rewrite Hd. simpl. done.
Qed.

(** X11.  When the file holds fewer than 100 bytes the program prints
    [Content of hello: ], the contents up to their first ['\000'] if any, and
    a newline, whatever the array held before, closes the descriptor and
    returns 0. *)
Theorem short_file_is_printed (buffer content : list ascii) (fs : Files) :
  length buffer = 100%nat → disk fs (lit "hello.txt") = Some content →
  read_fails fs = false → (length content < 100)%nat →
  fds fs !! Z.of_nat (next_fd fs) = None →
  (ReadExt2File.main buffer fs).1 = Value 0 ∧
  stdout (ReadExt2File.main buffer fs).2
  = stdout fs ++ lit "Content of hello: " ++ c_str content ++ [LF] ∧
  stderr (ReadExt2File.main buffer fs).2 = stderr fs ∧
  fds (ReadExt2File.main buffer fs).2 = fds fs.
Proof.
  intros Hb Hd Hr Hlen Hfresh.
  unfold ReadExt2File.main, bind, open, read. rewrite Hd. cbn [fst snd fds read_fails].
  destruct (Z.ltb_spec (Z.of_nat (next_fd fs)) 0) as [?|_]; [lia|].
  cbn [fst snd fds read_fails].
  rewrite lookup_insert_eq, Hr. cbn [fst snd].
  rewrite take_ge by lia.
  destruct (Z.ltb_spec (Z.of_nat (length content)) 0) as [?|_]; [lia|].
  unfold store_at. rewrite length_app, length_drop, Hb.
  destruct (Z.leb_spec 0 (Z.of_nat (length content))) as [_|?]; [|lia].
  destruct (Z.ltb_spec (Z.of_nat (length content))
              (Z.of_nat (length content + (100 - length content)))) as [_|?]; [|lia].
  cbn [andb printf close ret fst snd stdout stderr fds].
  rewrite Nat2Z.id.
  rewrite terminate_after_read by lia. unfold store. rewrite c_str_app_NUL.
  split; [done|]. split; [done|]. split; [done|].
  rewrite insert_insert_eq, delete_insert_eq. by apply delete_id.
Qed.


(** X13.  When the read fails the program writes the diagnostic to
    standard error, closes the descriptor it opened and ends with status 1,
    with nothing on standard output. *)
Theorem read_failure_closes_the_file (buffer content : list ascii) (fs : Files) :
  disk fs (lit "hello.txt") = Some content → read_fails fs = true →
  fds fs !! Z.of_nat (next_fd fs) = None →
  (ReadExt2File.main buffer fs).1 = Exits 1 ∧
  stdout (ReadExt2File.main buffer fs).2 = stdout fs ∧
  stderr (ReadExt2File.main buffer fs).2
  = stderr fs ++ [(lit "Failed to read from hello in child", DeviceError)] ∧
  fds (ReadExt2File.main buffer fs).2 = fds fs.
Proof.
  intros Hd Hr Hfresh.
  unfold ReadExt2File.main, bind, open, read. rewrite Hd. cbn [fst snd fds read_fails].
  destruct (Z.ltb_spec (Z.of_nat (next_fd fs)) 0) as [?|_]; [lia|].
  cbn [fst snd fds read_fails].
  rewrite lookup_insert_eq, Hr. simpl.
  split; [done|]. split; [done|]. split; [done|].
  rewrite delete_insert_eq. by apply delete_id.
Qed.

End FileReader.

(** ** The test report *)

Module Reports.
Import CStr Report ReportFacts.

(** X14.  Over any sequence of calls of [print_result] that the counters
    have room for, [total_tests] grows by the number of calls, [passed_tests]
    by the number of calls whose result is exactly [TEST_PASSED],
    [failed_tests] by the number of all others, and the total stays the sum
    of the other two. *)
Theorem counters_add_up (calls : list (list ascii * Z)) :
  ∀ t : Tests,
    consistent t → total_tests t + Z.of_nat (length calls) <= INT_MAX →
    ∃ t', print_results calls t = Some t' ∧
          total_tests t' = total_tests t + Z.of_nat (length calls) ∧
          passed_tests t' = passed_tests t + Z.of_nat (passes calls) ∧
          failed_tests t' = failed_tests t + Z.of_nat (length calls - passes calls) ∧
          total_tests t' = passed_tests t' + failed_tests t'.
Proof.
  induction calls as [|[name result] calls IH]; intros t Hc Hroom.
  { exists t. destruct Hc as (Hsum & _). unfold passes. simpl. split; [done|]. lia. }
  simpl in Hroom.
  destruct (print_result_step name result t Hc) as (t1 & H1 & Hc1 & Ht & Hp & Hf); [lia|].
  destruct (IH t1 Hc1) as (t' & H' & Ht' & Hp' & Hf' & Hsum'); [lia|].
  exists t'. cbn [print_results]. unfold andthen. rewrite H1. split; [done|].
  assert (Hle : (passes calls <= length calls)%nat) by apply List.filter_length_le.
  unfold passes in *. cbn [List.filter snd length].
  destruct (result =? TEST_PASSED); cbn [length]; lia.
Qed.

(** X15.  The tests of labs 8, 10, 11 and 13 cannot fail: whatever the
    system does they record 1, 1, 4 and 3 passes and leave [failed_tests] as
    it was. *)
Theorem placeholder_tests_cannot_fail (t : Tests) :
  consistent t → total_tests t + 4 <= INT_MAX →
  (∃ t', test_lab8 t = Some t' ∧ passed_tests t' = passed_tests t + 1 ∧
         failed_tests t' = failed_tests t) ∧
  (∃ t', test_lab10 t = Some t' ∧ passed_tests t' = passed_tests t + 1 ∧
         failed_tests t' = failed_tests t) ∧
  (∃ t', test_lab11 t = Some t' ∧ passed_tests t' = passed_tests t + 4 ∧
         failed_tests t' = failed_tests t) ∧
  (∃ t', test_lab13 t = Some t' ∧ passed_tests t' = passed_tests t + 3 ∧
         failed_tests t' = failed_tests t).
Proof.
  intros (Hsum & Hp & Hf) Hroom.
  assert (H1 : (total_tests t + 1 <? INT_MAX) = true) by (apply Z.ltb_lt; lia).
  assert (H2 : (total_tests t + 1 + 1 <? INT_MAX) = true) by (apply Z.ltb_lt; lia).
  assert (H3 : (total_tests t + 1 + 1 + 1 <? INT_MAX) = true) by (apply Z.ltb_lt; lia).
  assert (H0 : (total_tests t <? INT_MAX) = true) by (apply Z.ltb_lt; lia).
  assert (P0 : (passed_tests t <? INT_MAX) = true) by (apply Z.ltb_lt; lia).
  assert (P1 : (passed_tests t + 1 <? INT_MAX) = true) by (apply Z.ltb_lt; lia).
  assert (P2 : (passed_tests t + 1 + 1 <? INT_MAX) = true) by (apply Z.ltb_lt; lia).
  assert (P3 : (passed_tests t + 1 + 1 + 1 <? INT_MAX) = true) by (apply Z.ltb_lt; lia).
  repeat split.
  - eexists. unfold test_lab8, andthen, print_header, andthen, printf, print_result, incr.
    cbn [total_tests passed_tests failed_tests Z.eqb TEST_PASSED Pos.eqb].
    rewrite H0, P0. split; [reflexivity|]. cbn [passed_tests failed_tests]. lia.
  - eexists. unfold test_lab10, andthen, print_header, andthen, printf, print_result, incr.
    cbn [total_tests passed_tests failed_tests Z.eqb TEST_PASSED Pos.eqb].
    rewrite H0, P0. split; [reflexivity|]. cbn [passed_tests failed_tests]. lia.
  - eexists. unfold test_lab11, andthen, print_header, andthen, printf, print_result, incr.
    cbn [total_tests passed_tests failed_tests Z.eqb TEST_PASSED Pos.eqb].
    rewrite H0, P0. cbn [total_tests passed_tests failed_tests].
    rewrite H1, P1. cbn [total_tests passed_tests failed_tests].
    rewrite H2, P2. cbn [total_tests passed_tests failed_tests].
    rewrite H3, P3. split; [reflexivity|]. cbn [passed_tests failed_tests]. lia.
  - eexists. unfold test_lab13, andthen, print_header, andthen, printf, print_result, incr.
    cbn [total_tests passed_tests failed_tests Z.eqb TEST_PASSED Pos.eqb].
    rewrite H0, P0. cbn [total_tests passed_tests failed_tests].
    rewrite H1, P1. cbn [total_tests passed_tests failed_tests].
    rewrite H2, P2. split; [reflexivity|]. cbn [passed_tests failed_tests]. lia.
Qed.

End Reports.

(** ** The Ext2 test of the dashboard *)

Module DashboardFiles.
Import CStr Posix CStrFacts PosixFacts.

Ltac files_step :=
  cbn [fst snd fds read_fails disk next_fd stdout stderr cause
       Z.gtb Z.ltb Z.leb Z.compare andb orb close ret take drop length Nat.eqb].

(** Running through [open] and [read]. *)
Ltac open_and_read fs Hd :=
  unfold bind, open, read, printf; cbn [fst snd fds read_fails disk next_fd];
  rewrite ?Hd; cbn [fst snd fds read_fails disk next_fd];
  try (destruct (Z.ltb_spec (Z.of_nat (next_fd fs)) 0) as [?|_]; [lia|]);
  cbn [fst snd fds read_fails disk next_fd];
  rewrite ?lookup_insert_eq.

(** X16.  The Ext2 test of the dashboard always returns, with every
    descriptor it opened closed again and no store outside its array: it
    reads at most 99 bytes.  It reports a failure to open when the file is
    missing, a failure to read when the read fails or the file is empty, and
    otherwise prints the first 99 bytes up to their first ['\000'] and
    reports success. *)
Theorem ext2_test_output (buf : list ascii) (fs : Files) :
  length buf = 100%nat → fds fs !! Z.of_nat (next_fd fs) = None →
  (Dashboard.test_lab14_ext2 buf fs).1 = Value tt ∧
  fds (Dashboard.test_lab14_ext2 buf fs).2 = fds fs ∧
  stdout (Dashboard.test_lab14_ext2 buf fs).2
  = stdout fs ++ ([LF] ++ lit "[Lab 14] Testing Ext2 Filesystem..." ++ [LF]) ++
    match disk fs (lit "hello.txt") with
    | None => lit "  âŒ Failed to open hello.txt from Ext2" ++ [LF]
    | Some content =>
        if read_fails fs || (length content =? 0)%nat
        then lit "  âŒ Failed to read from Ext2" ++ [LF]
        else lit "  Read from Ext2: " ++ c_str (take 99 content) ++ [LF] ++
             (lit "  âœ… Ext2 test passed!" ++ [LF])
    end.
Proof.
  intros Hb Hfresh. unfold Dashboard.test_lab14_ext2.
  destruct (disk fs (lit "hello.txt")) as [content|] eqn:Hd.
  - open_and_read fs Hd. rewrite Hb.
    destruct (read_fails fs) eqn:Hr.
    + files_step. rewrite delete_insert_eq, <- !app_assoc. by rewrite delete_id.
    + cbn [fst snd orb]. change (100 - 1)%nat with 99%nat.
      destruct content as [|c content].
      * files_step. change (Z.of_nat 0 >? 0) with false. files_step.
        rewrite insert_insert_eq, delete_insert_eq, <- !app_assoc.
        by rewrite delete_id.
      * assert (Hn : (0 < length (take 99 (c :: content)) < 100)%nat).
        { rewrite length_take. cbn [length]. lia. }
        set (chunk := take 99 (c :: content)) in *.
        destruct (Z.gtb_spec (Z.of_nat (length chunk)) 0) as [_|?]; [|lia].
        unfold store_at. rewrite length_app, length_drop, Hb.
        destruct (Z.leb_spec 0 (Z.of_nat (length chunk))) as [_|?]; [|lia].
        destruct (Z.ltb_spec (Z.of_nat (length chunk))
                    (Z.of_nat (length chunk + (100 - length chunk)))) as [_|?]; [|lia].
        cbn [andb close fst snd stdout fds]. rewrite Nat2Z.id.
        rewrite terminate_after_read by lia. unfold store. rewrite c_str_app_NUL.
        cbn [Nat.eqb length]. rewrite insert_insert_eq, delete_insert_eq, <- !app_assoc.
        by rewrite delete_id.
  - open_and_read fs Hd. files_step. by rewrite <- !app_assoc.
Qed.

End DashboardFiles.

(** ** The further properties at sample inputs *)

Module Checked.
Import CStr Sys Shell Kernel Session Observe.

Lemma typed_line_reaches_exec_unchanged_sample :
  length Demo.stale = NUM ∧ is_line [] = true ∧
  stdin Cases.empty_line = [] ++ LF :: lit ("/bin/true" ++ Demo.nl) ∧
  creation_succeeds Cases.empty_line = true ∧
  ∃ tail,
    log (final (run (loop 1 Demo.stale) Cases.empty_line))
    = log Cases.empty_line ++
      [(self Cases.empty_line, EvOut (lit "~ # "));
       (self Cases.empty_line, EvRead ([] ++ [LF]));
       (self Cases.empty_line,
        EvOut (lit (String LF " Running command: ") ++ [] ++ [LF]));
       (self Cases.empty_line, EvFork (child_pid Cases.empty_line));
       (child_pid Cases.empty_line, EvExec [] [[]])] ++ tail.
Proof.
  split; [reflexivity|]. split; [reflexivity|]. split; [reflexivity|].
  split; [reflexivity|].
  apply (Reader.typed_line_reaches_exec_unchanged 0 Demo.stale Cases.empty_line
           [] (lit ("/bin/true" ++ Demo.nl))); reflexivity.
Defined.

Lemma command_is_a_terminated_line_sample :
  stdin Demo.two_commands
  = "/"%char :: lit ("bin/true" ++ Demo.nl ++ "/bin/false" ++ Demo.nl) ∧
  "/"%char ≠ NUL ∧ length Demo.stale = NUM ∧
  ∃ command2,
    run (bind (loop_body Demo.stale) Ret) Demo.two_commands
    = run (bind (execute command2) (λ _, Ret command2)) (at_dispatch Demo.two_commands) ∧
    length command2 = NUM ∧ terminated command2 ∧
    (LF ∉ c_str command2) ∧ (NUL ∉ c_str command2) ∧
    (strlen command2 <= NUM - 2)%nat.
Proof.
  split; [reflexivity|]. split; [discriminate|]. split; [reflexivity|].
  apply (Reader.command_is_a_terminated_line Demo.stale Ret Demo.two_commands
           "/"%char (lit ("bin/true" ++ Demo.nl ++ "/bin/false" ++ Demo.nl)));
    [reflexivity | discriminate | reflexivity].
Defined.

Lemma overlong_line_is_split_sample :
  length Demo.stale = NUM ∧
  (NUM - 1 <= length (stdin Demo.long_line))%nat ∧
  (LF ∉ take (NUM - 1) (stdin Demo.long_line)) ∧
  (NUL ∉ take (NUM - 1) (stdin Demo.long_line)) ∧
  ∃ command2,
    c_str command2 = take (NUM - 2) (stdin Demo.long_line) ∧
    run (loop 1 Demo.stale) Demo.long_line
    = run (bind (execute command2) (λ _, loop 0 command2))
        (emit (EvOut (lit (String LF " Running command: ")
                        ++ take (NUM - 2) (stdin Demo.long_line) ++ [LF]))
           (emit (EvRead (take (NUM - 1) (stdin Demo.long_line)))
              (set_stdin (drop (NUM - 1) (stdin Demo.long_line))
                 (emit (EvOut (lit "~ # ")) Demo.long_line)))).
Proof.
  assert (Hlong : (NUM - 1 <= length (stdin Demo.long_line))%nat).
  { apply Nat.leb_le. vm_compute. reflexivity. }
  assert (Hlf : LF ∉ take (NUM - 1) (stdin Demo.long_line)).
  { apply (bool_decide_unpack _). vm_compute. exact I. }
  assert (Hnul : NUL ∉ take (NUM - 1) (stdin Demo.long_line)).
  { apply (bool_decide_unpack _). vm_compute. exact I. }
  split; [reflexivity|]. split; [exact Hlong|]. split; [exact Hlf|].
  split; [exact Hnul|].
  apply (Reader.overlong_line_is_split 0 Demo.stale Demo.long_line);
    [reflexivity | exact Hlong | exact Hlf | exact Hnul].
Defined.



Lemma loop_does_not_outlive_its_input_sample :
  length Demo.stale = NUM ∧
  (length (stdin Demo.two_commands) < 22)%nat ∧
  (res (run (loop 22 Demo.stale) Demo.two_commands) = Crashed ∨
   (res (run (loop 22 Demo.stale) Demo.two_commands) = Hung ∧
    ¬ all_end (programs Demo.two_commands))).
Proof.
  assert (Hlt : (length (stdin Demo.two_commands) < 22)%nat).
  { apply Nat.ltb_lt. vm_compute. reflexivity. }
  split; [reflexivity|]. split; [exact Hlt|].
  apply (Sessions.loop_does_not_outlive_its_input 22 Demo.stale Demo.two_commands);
    [reflexivity | exact Hlt].
Defined.

Lemma shell_never_exits_sample :
  length Demo.stale = NUM ∧
  res (run (main 3 Demo.stale) Demo.two_words) ≠ Exited 1.
Proof.
  split; [reflexivity|].
  apply (Sessions.shell_never_exits 3 Demo.stale Demo.two_words 1). reflexivity.
Defined.

Lemma every_child_is_reaped_sample :
  length Demo.stale = NUM ∧
  all_reaped (procs Demo.two_commands) ∧
  (∃ c', res (run (loop 2 Demo.stale) Demo.two_commands) = Done c') ∧
  all_reaped (procs (final (run (loop 2 Demo.stale) Demo.two_commands))).
Proof.
  assert (Hall : all_reaped (procs Demo.two_commands)).
  { intros pid c H. exfalso. revert H. apply eq_None_ne_Some_1, lookup_empty. }
  assert (Hdone : ∃ c', res (run (loop 2 Demo.stale) Demo.two_commands) = Done c').
  { eexists. vm_compute. reflexivity. }
  split; [reflexivity|]. split; [exact Hall|]. split; [exact Hdone|].
  apply (Sessions.every_child_is_reaped 2 Demo.stale Demo.two_commands);
    [reflexivity | exact Hall | exact Hdone].
Defined.

Lemma one_creation_per_pass_sample :
  length Demo.stale = NUM ∧
  (∃ c', res (run (loop 2 Demo.stale) Demo.two_commands) = Done c') ∧
  ∃ evs,
    log (final (run (loop 2 Demo.stale) Demo.two_commands))
    = log Demo.two_commands ++ evs ∧
    length (List.filter is_fork evs) = 2%nat ∧
    length (List.filter is_read evs) = 2%nat.
Proof.
  assert (Hdone : ∃ c', res (run (loop 2 Demo.stale) Demo.two_commands) = Done c').
  { eexists. vm_compute. reflexivity. }
  split; [reflexivity|]. split; [exact Hdone|].
  apply (Sessions.one_creation_per_pass 2 Demo.stale Demo.two_commands);
    [reflexivity | exact Hdone].
Defined.

End Checked.

(** ** The file and report properties at sample inputs *)

Module CheckedFiles.
Import CStr Posix Report.

Lemma missing_file_is_reported_sample :
  disk Cases.without_hello (lit "hello.txt") = None ∧
  (ReadExt2File.main Cases.buffer100 Cases.without_hello).1 = Exits 1 ∧
  stdout (ReadExt2File.main Cases.buffer100 Cases.without_hello).2
  = stdout Cases.without_hello ∧
  stderr (ReadExt2File.main Cases.buffer100 Cases.without_hello).2
  = stderr Cases.without_hello ++ [(lit "Failed to open hello in child", NoSuchFile)] ∧
  fds (ReadExt2File.main Cases.buffer100 Cases.without_hello).2
  = fds Cases.without_hello.
Proof.
  split; [reflexivity|].
  apply (FileReader.missing_file_is_reported Cases.buffer100 Cases.without_hello).
  reflexivity.
Defined.

Lemma short_file_is_printed_sample :
  length Cases.buffer100 = 100%nat ∧
  disk (Cases.with_hello (lit "Hello, Ext2") false) (lit "hello.txt")
  = Some (lit "Hello, Ext2") ∧
  read_fails (Cases.with_hello (lit "Hello, Ext2") false) = false ∧
  (length (lit "Hello, Ext2") < 100)%nat ∧
  fds (Cases.with_hello (lit "Hello, Ext2") false)
    !! Z.of_nat (next_fd (Cases.with_hello (lit "Hello, Ext2") false)) = None ∧
  (ReadExt2File.main Cases.buffer100 (Cases.with_hello (lit "Hello, Ext2") false)).1
  = Value 0 ∧
  stdout (ReadExt2File.main Cases.buffer100 (Cases.with_hello (lit "Hello, Ext2") false)).2
  = stdout (Cases.with_hello (lit "Hello, Ext2") false)
    ++ lit "Content of hello: " ++ c_str (lit "Hello, Ext2") ++ [LF] ∧
  stderr (ReadExt2File.main Cases.buffer100 (Cases.with_hello (lit "Hello, Ext2") false)).2
  = stderr (Cases.with_hello (lit "Hello, Ext2") false) ∧
  fds (ReadExt2File.main Cases.buffer100 (Cases.with_hello (lit "Hello, Ext2") false)).2
  = fds (Cases.with_hello (lit "Hello, Ext2") false).
Proof.
  assert (Hlt : (length (lit "Hello, Ext2") < 100)%nat) by (simpl; lia).
  split; [reflexivity|]. split; [reflexivity|]. split; [reflexivity|].
  split; [exact Hlt|]. split; [reflexivity|].
  apply (FileReader.short_file_is_printed Cases.buffer100 (lit "Hello, Ext2")
           (Cases.with_hello (lit "Hello, Ext2") false));
    [reflexivity | reflexivity | reflexivity | exact Hlt | reflexivity].
Defined.


Lemma read_failure_closes_the_file_sample :
  disk (Cases.with_hello (lit "Hello, Ext2") true) (lit "hello.txt")
  = Some (lit "Hello, Ext2") ∧
  read_fails (Cases.with_hello (lit "Hello, Ext2") true) = true ∧
  fds (Cases.with_hello (lit "Hello, Ext2") true)
    !! Z.of_nat (next_fd (Cases.with_hello (lit "Hello, Ext2") true)) = None ∧
  (ReadExt2File.main Cases.buffer100 (Cases.with_hello (lit "Hello, Ext2") true)).1
  = Exits 1 ∧
  stdout (ReadExt2File.main Cases.buffer100 (Cases.with_hello (lit "Hello, Ext2") true)).2
  = stdout (Cases.with_hello (lit "Hello, Ext2") true) ∧
  stderr (ReadExt2File.main Cases.buffer100 (Cases.with_hello (lit "Hello, Ext2") true)).2
  = stderr (Cases.with_hello (lit "Hello, Ext2") true)
    ++ [(lit "Failed to read from hello in child", DeviceError)] ∧
  fds (ReadExt2File.main Cases.buffer100 (Cases.with_hello (lit "Hello, Ext2") true)).2
  = fds (Cases.with_hello (lit "Hello, Ext2") true).
Proof.
  split; [reflexivity|]. split; [reflexivity|]. split; [reflexivity|].
  apply (FileReader.read_failure_closes_the_file Cases.buffer100 (lit "Hello, Ext2")
           (Cases.with_hello (lit "Hello, Ext2") true)); reflexivity.
Defined.

Lemma counters_add_up_sample :
  consistent start ∧
  total_tests start + Z.of_nat (length Cases.three_results) <= INT_MAX ∧
  ∃ t', print_results Cases.three_results start = Some t' ∧
        total_tests t' = total_tests start + Z.of_nat (length Cases.three_results) ∧
        passed_tests t' = passed_tests start + Z.of_nat (passes Cases.three_results) ∧
        failed_tests t'
        = failed_tests start
          + Z.of_nat (length Cases.three_results - passes Cases.three_results) ∧
        total_tests t' = passed_tests t' + failed_tests t'.
Proof.
  assert (Hc : consistent start) by (repeat split; simpl; lia).
  assert (Hroom : total_tests start + Z.of_nat (length Cases.three_results) <= INT_MAX).
  { vm_compute. discriminate. }
  split; [exact Hc|]. split; [exact Hroom|].
  apply (Reports.counters_add_up Cases.three_results start); [exact Hc | exact Hroom].
Defined.

Lemma placeholder_tests_cannot_fail_sample :
  consistent start ∧ total_tests start + 4 <= INT_MAX ∧
  (∃ t', test_lab8 start = Some t' ∧ passed_tests t' = passed_tests start + 1 ∧
         failed_tests t' = failed_tests start) ∧
  (∃ t', test_lab10 start = Some t' ∧ passed_tests t' = passed_tests start + 1 ∧
         failed_tests t' = failed_tests start) ∧
  (∃ t', test_lab11 start = Some t' ∧ passed_tests t' = passed_tests start + 4 ∧
         failed_tests t' = failed_tests start) ∧
  (∃ t', test_lab13 start = Some t' ∧ passed_tests t' = passed_tests start + 3 ∧
         failed_tests t' = failed_tests start).
Proof.
  assert (Hc : consistent start) by (repeat split; simpl; lia).
  assert (Hroom : total_tests start + 4 <= INT_MAX) by (vm_compute; discriminate).
  split; [exact Hc|]. split; [exact Hroom|].
  apply (Reports.placeholder_tests_cannot_fail start); [exact Hc | exact Hroom].
Defined.

(** The Ext2 test on a file of eleven bytes. *)
Lemma ext2_test_output_sample :
  (length Cases.buffer100 = 100%nat) ∧
  (fds (Cases.with_hello (lit "Hello, Ext2") false)
     !! Z.of_nat (next_fd (Cases.with_hello (lit "Hello, Ext2") false)) = None) ∧
  (Dashboard.test_lab14_ext2 Cases.buffer100
     (Cases.with_hello (lit "Hello, Ext2") false)).1 = Value tt ∧
  fds (Dashboard.test_lab14_ext2 Cases.buffer100
         (Cases.with_hello (lit "Hello, Ext2") false)).2
  = fds (Cases.with_hello (lit "Hello, Ext2") false) ∧
  stdout (Dashboard.test_lab14_ext2 Cases.buffer100
            (Cases.with_hello (lit "Hello, Ext2") false)).2
  = stdout (Cases.with_hello (lit "Hello, Ext2") false) ++
    ([LF] ++ lit "[Lab 14] Testing Ext2 Filesystem..." ++ [LF]) ++
    match disk (Cases.with_hello (lit "Hello, Ext2") false) (lit "hello.txt") with
    | None => lit "  âŒ Failed to open hello.txt from Ext2" ++ [LF]
    | Some content =>
        if read_fails (Cases.with_hello (lit "Hello, Ext2") false)
           || (length content =? 0)%nat
        then lit "  âŒ Failed to read from Ext2" ++ [LF]
        else lit "  Read from Ext2: " ++ c_str (take 99 content) ++ [LF] ++
             (lit "  âœ… Ext2 test passed!" ++ [LF])
    end.
Proof.
  split; [reflexivity|]. split; [reflexivity|].
  apply (DashboardFiles.ext2_test_output Cases.buffer100
           (Cases.with_hello (lit "Hello, Ext2") false));
    reflexivity.
Defined.

End CheckedFiles.
